(** * A shallow embedding of the cache-aside persistence coordinator

    The development follows [src/index.ts] (class [DatabaseHandler]) together
    with the two store wrappers it drives, [PostgresHandler.query] and
    [RedisHandler].  JavaScript values are embedded as a small untyped value
    type, the relational store as a map from table names to lists of rows,
    the key-value store as a finite map from keys to string or hash entries,
    and every [async] method as a state-passing computation that returns
    either a resolved value or a rejection. *)

From Stdlib Require Import ZArith Lia Ascii Sorted.
From stdpp Require Import gmap strings list pretty fin.

Open Scope string_scope.
Open Scope list_scope.
Open Scope Z_scope.

(* ===================================================================== *)
(** ** JavaScript values *)
(* ===================================================================== *)

(** The values that flow through the handler: query parameters, column
    values, parsed JSON documents.  Numbers are the integers plus [NaN].  A
    [Date] is represented by its epoch millisecond count, as is the ISO text
    produced by [toISOString]. *)
#[warnings="-register-all"]
Inductive jsval :=
| JUndefined
| JNull
| JBool (b : bool)
| JNum (n : Z)
| JNaN
| JStr (s : string)
| JArr (items : list jsval)
| JObj (fields : list (string * jsval)).

(** [!v] is [negb (truthy v)]. *)
Definition truthy (v : jsval) : bool :=
  match v with
  | JUndefined | JNull | JNaN => false
  | JBool b => b
  | JNum n => negb (n =? 0)
  | JStr s => negb (String.eqb s "")
  | JArr _ | JObj _ => true
  end.

(** [a === b].  Arrays and objects are compared by reference in JavaScript;
    the values compared in the handler come from separate allocations, so
    they are never identical. *)
Definition strict_eq (a b : jsval) : bool :=
  match a, b with
  | JUndefined, JUndefined => true
  | JNull, JNull => true
  | JBool x, JBool y => Bool.eqb x y
  | JNum x, JNum y => x =? y
  | JStr x, JStr y => String.eqb x y
  | _, _ => false
  end.

(** [a || b] *)
Definition js_or (a b : jsval) : jsval := if truthy a then a else b.

(** Property read [o.k] on an object literal; [undefined] when absent. *)
Fixpoint assoc_get (k : string) (fs : list (string * jsval)) : jsval :=
  match fs with
  | [] => JUndefined
  | (k', v) :: fs' => if String.eqb k k' then v else assoc_get k fs'
  end.

Definition js_get (o : jsval) (k : string) : jsval :=
  match o with
  | JObj fs => assoc_get k fs
  | _ => JUndefined
  end.

(** Property write used by the spread [{ ...o, [k]: v }]: an existing key
    keeps its position, a new key is appended. *)
Fixpoint assoc_set (k : string) (v : jsval) (fs : list (string * jsval))
  : list (string * jsval) :=
  match fs with
  | [] => [(k, v)]
  | (k', v') :: fs' =>
      if String.eqb k k' then (k, v) :: fs' else (k', v') :: assoc_set k v fs'
  end.

(** [{ ...o }] of a value: own enumerable properties of an object, nothing
    for [undefined], [null] and the other primitives used here. *)
Definition spread_fields (o : jsval) : list (string * jsval) :=
  match o with
  | JObj fs => fs
  | _ => []
  end.

(** [JSON.parse (JSON.stringify v)]: members holding [undefined] vanish
    from objects and become [null] inside arrays. *)
Fixpoint JSON_parse_stringify (v : jsval) : jsval :=
  match v with
  | JArr items =>
      JArr (List.map (fun x => match x with
                               | JUndefined => JNull
                               | _ => JSON_parse_stringify x
                               end) items)
  | JNaN => JNull
  | JObj fs =>
      JObj ((fix go (l : list (string * jsval)) : list (string * jsval) :=
               match l with
               | [] => []
               | (k, JUndefined) :: l' => go l'
               | (k, x) :: l' => (k, JSON_parse_stringify x) :: go l'
               end) fs)
  | _ => v
  end.

(** The argument conversion of the Redis client ([undefined] and [null] are
    sent as the empty string, everything else through [String]). *)
Fixpoint to_arg (v : jsval) : string :=
  match v with
  | JUndefined | JNull => ""
  | JBool true => "true"
  | JBool false => "false"
  | JNum n => pretty n
  | JNaN => "NaN"
  | JStr s => s
  | JArr items => String.concat "," (List.map to_arg items)
  | JObj _ => "[object Object]"
  end.

(** [parseInt] on decimal numerals (optionally signed), which is what the
    handler stores; anything that does not start with a digit is [NaN]. *)
Definition digit_of (c : ascii) : option Z :=
  let n := nat_of_ascii c in
  if ((48 <=? n) && (n <=? 57))%nat then Some (Z.of_nat (n - 48)) else None.

Fixpoint parse_digits (acc : option Z) (s : string) : option Z :=
  match s with
  | EmptyString => acc
  | String c s' =>
      match digit_of c with
      | Some d => parse_digits (Some (10 * default 0 acc + d)) s'
      | None => acc
      end
  end.

Definition parseInt (v : jsval) : jsval :=
  match v with
  | JNum n => JNum n
  | JStr (String "-" s') =>
      match parse_digits None s' with Some n => JNum (- n) | None => JNaN end
  | JStr (String "+" s') =>
      match parse_digits None s' with Some n => JNum n | None => JNaN end
  | JStr s =>
      match parse_digits None s with Some n => JNum n | None => JNaN end
  | _ => JNaN
  end.

(** Iteration of a value by the array spread [[...v]]: arrays and strings
    are iterable, the other values raise a TypeError ([None]). *)
Definition iterate (v : jsval) : option (list jsval) :=
  match v with
  | JArr items => Some items
  | JStr s => Some (List.map (fun c => JStr (String c "")) (String.list_ascii_of_string s))
  | _ => None
  end.

(** Receiver of an array method ([filter], [find], [map]). *)
Definition array_of (v : jsval) : option (list jsval) :=
  match v with
  | JArr items => Some items
  | _ => None
  end.

(** [Array.prototype.sort] with a numeric comparator: a stable sort that
    puts [x] before [y] when [cmp x y <= 0]. *)
Section JsSort.
Context {A : Type} (cmp : A → A → Z).

Fixpoint sort_insert (x : A) (l : list A) : list A :=
  match l with
  | [] => [x]
  | y :: l' => if cmp x y <=? 0 then x :: y :: l' else y :: sort_insert x l'
  end.

Fixpoint js_sort (l : list A) : list A :=
  match l with
  | [] => []
  | x :: l' => sort_insert x (js_sort l')
  end.
End JsSort.

(* ===================================================================== *)
(** ** The relational store *)
(* ===================================================================== *)

(** A row maps column names to values; a database maps table names to
    their rows and sequence names to the next generated id. *)
Record Postgres := {
  tables : gmap string (list (gmap string jsval));
  sequences : gmap string Z
}.

Definition table (db : Postgres) (t : string) : list (gmap string jsval) :=
  default [] (tables db !! t).

Definition set_table (t : string) (rows : list (gmap string jsval)) (db : Postgres)
  : Postgres :=
  {| tables := <[t := rows]> (tables db); sequences := sequences db |}.

(** Column value as SQL sees it (absent is NULL) and as JavaScript reads
    it from a result row (absent is [undefined]). *)
Definition col (r : gmap string jsval) (c : string) : jsval := default JNull (r !! c).
Definition js_col (r : gmap string jsval) (c : string) : jsval := default JUndefined (r !! c).

(** Parameter conversion of the driver: "null and undefined are both null
    for postgres". *)
Definition pg_param (v : jsval) : jsval :=
  match v with
  | JUndefined => JNull
  | _ => v
  end.

(** SQL [a = b] in a WHERE clause: never true on NULL. *)
Definition sql_eq (a b : jsval) : bool :=
  match a, b with
  | JBool x, JBool y => Bool.eqb x y
  | JNum x, JNum y => x =? y
  | JStr x, JStr y => String.eqb x y
  | _, _ => false
  end.

Definition where_eq (c : string) (v : jsval) (r : gmap string jsval) : bool :=
  sql_eq (col r c) (pg_param v).

Definition sql_select (t : string) (cond : gmap string jsval → bool) (db : Postgres)
  : list (gmap string jsval) :=
  List.filter cond (table db t).

Definition sql_insert (t : string) (r : gmap string jsval) (db : Postgres) : Postgres :=
  set_table t (table db t ++ [r]) db.

Definition sql_update (t : string) (cond : gmap string jsval → bool)
    (c : string) (v : jsval) (db : Postgres) : Postgres :=
  set_table t
    (List.map (fun r => if cond r then <[c := pg_param v]> r else r) (table db t)) db.

Definition sql_delete (t : string) (cond : gmap string jsval → bool) (db : Postgres)
  : Postgres :=
  set_table t (List.filter (fun r => negb (cond r)) (table db t)) db.

(** [nextval] of a serial column. *)
Definition seq_value (db : Postgres) (s : string) : Z := default 1 (sequences db !! s).

Definition seq_advance (s : string) (db : Postgres) : Postgres :=
  {| tables := tables db; sequences := <[s := seq_value db s + 1]> (sequences db) |}.

(** [SUM(c)] over a set of rows; NULLs do not contribute. *)
Definition num_of (v : jsval) : Z :=
  match v with
  | JNum n => n
  | _ => 0
  end.

Definition sql_sum (c : string) (rows : list (gmap string jsval)) : Z :=
  foldr (fun r acc => num_of (col r c) + acc) 0 rows.

(* ===================================================================== *)
(** ** The key-value store *)
(* ===================================================================== *)

(** A key holds a string (here: the JSON document the text parses to) or a
    hash of string fields, and possibly a remaining time to live. *)
Inductive rvalue :=
| RString (data : jsval)
| RHash (h : gmap string string).

Record entry := { content : rvalue; ttl : option N }.

(** Replies of the commands the handler sends; [None] is the WRONGTYPE
    error reply. *)
Definition redis_get (k : string) (s : gmap string entry) : option jsval :=
  match s !! k with
  | None => Some JNull
  | Some {| content := RString d |} => Some d
  | Some {| content := RHash _ |} => None
  end.

Definition redis_set (k : string) (d : jsval) (s : gmap string entry)
  : gmap string entry :=
  <[k := {| content := RString d; ttl := None |}]> s.

Definition redis_hgetall (k : string) (s : gmap string entry)
  : option (gmap string string) :=
  match s !! k with
  | None => Some ∅
  | Some {| content := RHash h |} => Some h
  | Some {| content := RString _ |} => None
  end.

Definition hash_put (fs : list (string * string)) (h : gmap string string)
  : gmap string string :=
  foldl (fun acc kv => <[kv.1 := kv.2]> acc) h fs.

Definition redis_hset (k : string) (fs : list (string * string))
    (s : gmap string entry) : option (gmap string entry) :=
  match s !! k with
  | None => Some (<[k := {| content := RHash (hash_put fs ∅); ttl := None |}]> s)
  | Some {| content := RHash h; ttl := t |} =>
      Some (<[k := {| content := RHash (hash_put fs h); ttl := t |}]> s)
  | Some {| content := RString _ |} => None
  end.

Definition redis_del (k : string) (s : gmap string entry) : gmap string entry :=
  delete k s.

Definition redis_expire (k : string) (seconds : N) (s : gmap string entry)
  : gmap string entry :=
  alter (fun e => {| content := content e; ttl := Some seconds |}) k s.


(* ===================================================================== *)
(** ** Promises over the two stores *)
(* ===================================================================== *)

Inductive pg_kind := PgSelect | PgInsert | PgUpdate | PgDelete.
Inductive redis_kind := RGet | RSet | RHGetAll | RHSet | RHMSet | RDel | RExpire.

(** One round trip to a store: the statement kind and table, or the
    command and key. *)
Inductive store_op :=
| OnPg (k : pg_kind) (tbl : string)
| OnRedis (k : redis_kind) (key : string).

Inductive error :=
| PgError
| RedisError
| TypeError
| Error (message : string).

Inductive outcome (A : Type) :=
| Resolved (a : A)
| Rejected (e : error).
Arguments Resolved {A} a.
Arguments Rejected {A} e.

Definition is_resolved {A} (o : outcome A) : bool :=
  match o with
  | Resolved _ => true
  | Rejected _ => false
  end.

(** The state an operation runs in: both stores, the round trips issued so
    far, and how many draws of [Math.random] were consumed. *)
Record World := {
  pg : Postgres;
  redis : gmap string entry;
  log : list store_op;
  rng_pos : nat
}.

(** What the operation does not control: which round trips fail (by kind
    and target), the wall clock, and the draws [~~(Math.random()*36)]. *)
Record Env := {
  fails : store_op → bool;
  now : Z;
  random36 : nat → fin 36
}.

Definition Promise (A : Type) : Type := Env → World → outcome A * World.

Definition resolve {A} (a : A) : Promise A := fun _ w => (Resolved a, w).
Definition reject {A} (e : error) : Promise A := fun _ w => (Rejected e, w).

(** [await p] followed by the rest of the function body. *)
Definition bind {A B} (p : Promise A) (k : A → Promise B) : Promise B :=
  fun e w =>
    match p e w with
    | (Resolved a, w') => k a e w'
    | (Rejected err, w') => (Rejected err, w')
    end.

Notation "'await' x := p 'in' k" := (bind p (fun x => k))
  (at level 10, x name, p at level 100, k at level 200).
Notation "'await_' p 'in' k" := (bind p (fun _ => k))
  (at level 10, p at level 100, k at level 200).

(** [await Promise.all([p1, p2])] for promises created in this order: both
    were started, so both run to settlement whatever the other does; the
    whole rejects as soon as one of them does.  The handler pairs a cache
    promise with a store promise, which act on different stores, so running
    one after the other loses no interleaving. *)
Definition all2 {A B} (p1 : Promise A) (p2 : Promise B) : Promise (A * B) :=
  fun e w =>
    let '(o1, w1) := p1 e w in
    let '(o2, w2) := p2 e w1 in
    match o1, o2 with
    | Resolved a, Resolved b => (Resolved (a, b), w2)
    | Rejected err, _ => (Rejected err, w2)
    | _, Rejected err => (Rejected err, w2)
    end.


(** A started promise observed through its settlement: what a later
    [Promise.all] or [then] callback sees of it. *)
Definition settle {A} (p : Promise A) : Promise (outcome A) :=
  fun e w => let '(o, w') := p e w in (Resolved o, w').

Definition and_then {A B} (o : outcome A) (k : A → Promise B) : Promise B :=
  match o with
  | Resolved a => k a
  | Rejected err => reject err
  end.

(** A promise that is started and never awaited: its effect lands, its
    outcome is dropped. *)
Definition detach {A} (p : Promise A) : Promise unit :=
  fun e w => let '(_, w') := p e w in (Resolved tt, w').

Definition logged (op : store_op) (w : World) : World :=
  {| pg := pg w; redis := redis w; log := log w ++ [op]; rng_pos := rng_pos w |}.

Definition with_pg (db : Postgres) (w : World) : World :=
  {| pg := db; redis := redis w; log := log w; rng_pos := rng_pos w |}.

Definition with_redis (s : gmap string entry) (w : World) : World :=
  {| pg := pg w; redis := s; log := log w; rng_pos := rng_pos w |}.

(** [PostgresHandler.query]: resolves with the statement's result, rejects
    with the driver's error.  [run] is the statement; it yields [None] when
    the server refuses it. *)
Definition query_checked {A} (k : pg_kind) (tbl : string)
    (run : Postgres → option (A * Postgres)) : Promise A :=
  fun e w =>
    let w1 := logged (OnPg k tbl) w in
    if fails e (OnPg k tbl) then (Rejected PgError, w1)
    else match run (pg w) with
         | Some (a, db') => (Resolved a, with_pg db' w1)
         | None => (Rejected PgError, w1)
         end.

Definition query {A} (k : pg_kind) (tbl : string) (run : Postgres → A * Postgres)
  : Promise A :=
  query_checked k tbl (fun db => Some (run db)).

(** A command of the Redis client: resolves with the reply, rejects on a
    connection failure or an error reply. *)
Definition command {A} (k : redis_kind) (key : string)
    (run : gmap string entry → option (A * gmap string entry)) : Promise A :=
  fun e w =>
    let w1 := logged (OnRedis k key) w in
    if fails e (OnRedis k key) then (Rejected RedisError, w1)
    else match run (redis w) with
         | Some (a, s') => (Resolved a, with_redis s' w1)
         | None => (Rejected RedisError, w1)
         end.

(** *** RedisHandler *)

Module RedisHandler.

(** [getString(key, true)] *)
Definition getString (key : string) : Promise jsval :=
  command RGet key (fun s => d ← redis_get key s; Some (d, s)).

(** [setString(key, JSON.stringify(data))] *)
Definition setString (key : string) (data : jsval) : Promise unit :=
  command RSet key (fun s => Some (tt, redis_set key (JSON_parse_stringify data) s)).

Definition getHashFields (key : string) : Promise (gmap string string) :=
  command RHGetAll key (fun s => h ← redis_hgetall key s; Some (h, s)).

(** [setHash(key, data)]: HMSET for several fields, HSET of
    [fields[0]] otherwise. *)
Definition setHash (key : string) (data : list (string * jsval)) : Promise unit :=
  if (1 <? List.length data)%nat then
    command RHMSet key
      (fun s => s' ← redis_hset key (List.map (fun kv => (kv.1, to_arg kv.2)) data) s;
                Some (tt, s'))
  else
    command RHSet key
      (fun s => s' ← redis_hset key
                  [(to_arg (default JUndefined (JStr <$> (fst <$> head data))),
                    to_arg (default JUndefined (snd <$> head data)))] s;
                Some (tt, s')).

Definition delete (key : string) : Promise unit :=
  command RDel key (fun s => Some (tt, redis_del key s)).

(** [client.expire(key, seconds)] *)
Definition expire (key : string) (seconds : N) : Promise unit :=
  command RExpire key (fun s => Some (tt, redis_expire key seconds s)).

End RedisHandler.

(* ===================================================================== *)
(** ** DatabaseHandler *)
(* ===================================================================== *)

Definition lift_option {A} (o : option A) : Promise A :=
  match o with
  | Some a => resolve a
  | None => reject TypeError
  end.

(** [rows[0].c] raises a TypeError on an empty result; [rows[0]?.c] is
    [undefined] there. *)
Definition first_row (rows : list (gmap string jsval)) (c : string) : Promise jsval :=
  lift_option ((fun r => js_col r c) <$> head rows).

Definition first_row_opt (rows : list (gmap string jsval)) (c : string) : jsval :=
  default JUndefined ((fun r => js_col r c) <$> head rows).

Definition get_now : Promise Z := fun e w => (Resolved (now e), w).

Definition alphabet36 : string := "0123456789abcdefghijklmnopqrstuvwxyz".

Definition digit36 (d : fin 36) : string := String.substring (fin_to_nat d) 1 alphabet36.

(** [[...Array(12)].map(()=>(~~(Math.random()*36)).toString(36)).join("")] *)
Definition generateStorageID : Promise string :=
  fun e w =>
    (Resolved (String.concat ""
       (List.map (fun i => digit36 (random36 e (rng_pos w + i)%nat)) (seq 0 12))),
     {| pg := pg w; redis := redis w; log := log w;
        rng_pos := (rng_pos w + 12)%nat |}).

Definition hash_field (h : gmap string string) (f : string) : jsval :=
  default JUndefined (JStr <$> h !! f).

(** [new Date(v).getTime()] *)
Definition Date_getTime (v : jsval) : jsval := JNum (num_of v).

(** The expression shared by [countGuildInvites] and [restoreGuildInvites]:
    [storages.filter(s => s.storageID !== cur)
             .sort((a, b) => b.createdAt - a.createdAt)[0]?.storageID] *)
Definition by_createdAt_desc (a b : jsval) : Z :=
  num_of (js_get b "createdAt") - num_of (js_get a "createdAt").

Definition other_storages (storages : list jsval) (currentStorageID : string)
  : list jsval :=
  List.filter (fun storage =>
                 negb (strict_eq (js_get storage "storageID") (JStr currentStorageID)))
              storages.

Definition latest_other_storage (storages : list jsval) (currentStorageID : string)
  : jsval :=
  default JUndefined
    ((fun s => js_get s "storageID")
       <$> head (js_sort by_createdAt_desc (other_storages storages currentStorageID))).

(** Net invites of a members row, as the leaderboard statement computes
    it: [invites_regular - invites_leaves + invites_bonus - invites_fake]. *)
Definition sql_net (r : gmap string jsval) : Z :=
  num_of (col r "invites_regular") - num_of (col r "invites_leaves")
  + num_of (col r "invites_bonus") - num_of (col r "invites_fake").

(** [ORDER BY e DESC]; ties keep their table order. *)
Definition sql_order_by_desc (e : gmap string jsval → Z)
    (rows : list (gmap string jsval)) : list (gmap string jsval) :=
  js_sort (fun a b => e b - e a) rows.

Definition key_guild (guildID : string) : string := "guild_" +:+ guildID.
Definition key_alerts (guildID : string) : string := "guild_alerts_" +:+ guildID.
Definition key_plugins (guildID : string) : string := "guild_plugins_" +:+ guildID.
Definition key_blacklisted (guildID : string) : string := "guild_blacklisted_" +:+ guildID.
Definition key_subscriptions (guildID : string) : string :=
  "guild_subscriptions_" +:+ guildID.
Definition key_leaderboard (guildID storageID : string) : string :=
  "guild_leaderboard_" +:+ guildID +:+ "_" +:+ storageID.
Definition key_events (userID guildID : string) : string :=
  "member_" +:+ userID +:+ "_" +:+ guildID +:+ "_events".

Definition guild_setting_names : list string :=
  ["language"; "prefix"; "cmd_channel"; "fake_threshold"; "storage_id"].
Definition subscription_setting_names : list string :=
  ["expires_at"; "created_at"; "sub_label"; "guilds_count"; "patreon_user_id";
   "cancelled"; "sub_invalidated"].
Definition alert_setting_names : list string :=
  ["channel_id"; "message"; "invite_count"; "alert_type"].

(** [list.includes(s)] on strings *)
Definition includes (l : list string) (s : string) : bool :=
  existsb (String.eqb s) l.

Section DatabaseHandler.

(** [snakeCase] of the change-case package. *)
Variable snakeCase : string → string.

(** *** Storage epochs *)

Definition fetchGuildStorages (guildID : string) : Promise (list jsval) :=
  await rows := query PgSelect "guild_storages"
      (fun db => (sql_select "guild_storages"
                    (where_eq "guild_id" (JStr guildID)) db, db)) in
  resolve (List.map (fun row =>
             JObj [("guildID", js_col row "guild_id");
                   ("storageID", js_col row "storage_id");
                   ("createdAt", Date_getTime (js_col row "created_at"))]) rows).

(** The aggregate statement of [countGuildInvites]: one row per group,
    hence none when no members row matches. *)
Definition sum_member_invites (guildID : string) (storageID : jsval)
    (db : Postgres) : list (gmap string jsval) :=
  let ms := sql_select "members"
              (fun r => where_eq "guild_id" (JStr guildID) r
                        && where_eq "storage_id" storageID r) db in
  match ms with
  | [] => []
  | _ :: _ =>
      [ {[ "guild_id" := JStr guildID;
           "invites_regular" := JNum (sql_sum "invites_regular" ms);
           "invites_fake" := JNum (sql_sum "invites_fake" ms);
           "invites_bonus" := JNum (sql_sum "invites_bonus" ms);
           "invites_leaves" := JNum (sql_sum "invites_leaves" ms) ]} ]
  end.

Definition countGuildInvites (guildID currentStorageID : string) : Promise jsval :=
  await guildStorages := fetchGuildStorages guildID in
  let previousStorageID := latest_other_storage guildStorages currentStorageID in
  if negb (truthy previousStorageID) then resolve JNull
  else
    await rows := query PgSelect "members"
        (fun db => (sum_member_invites guildID previousStorageID db, db)) in
    resolve (JObj
      [("regular", js_or (first_row_opt rows "invites_regular") (JNum 0));
       ("leaves", js_or (first_row_opt rows "invites_leaves") (JNum 0));
       ("bonus", js_or (first_row_opt rows "invites_bonus") (JNum 0));
       ("fake", js_or (first_row_opt rows "invites_fake") (JNum 0))]).

(** [UPDATE guilds SET guild_storage_id = $1 WHERE guild_id = $2
     RETURNING guild_storage_id] *)
Definition update_guild_storage_id (guildID : string) (storageID : jsval)
    (db : Postgres) : list (gmap string jsval) * Postgres :=
  let db' := sql_update "guilds" (where_eq "guild_id" (JStr guildID))
               "guild_storage_id" storageID db in
  (List.map (fun r => {[ "guild_storage_id" := col r "guild_storage_id" ]})
     (sql_select "guilds" (where_eq "guild_id" (JStr guildID)) db'),
   db').

Definition insert_guild_storage (guildID : string) (storageID : jsval)
    (createdAt : Z) (db : Postgres) : unit * Postgres :=
  (tt, sql_insert "guild_storages"
         {[ "guild_id" := JStr guildID;
            "storage_id" := pg_param storageID;
            "created_at" := JNum createdAt ]} db).

Definition removeGuildInvites (guildID : string) : Promise jsval :=
  await generated := generateStorageID in
  await rows := query PgUpdate "guilds"
      (update_guild_storage_id guildID (JStr generated)) in
  await newStorageID := first_row rows "guild_storage_id" in
  await_ RedisHandler.setHash (key_guild guildID) [("storageID", newStorageID)] in
  await createdAt := get_now in
  await_ query PgInsert "guild_storages"
      (insert_guild_storage guildID newStorageID createdAt) in
  resolve newStorageID.

Definition restoreGuildStorage (guildID : string) (storageID : jsval)
  : Promise unit :=
  await_ all2
      (RedisHandler.setHash (key_guild guildID) [("storageID", storageID)])
      (query PgUpdate "guilds" (update_guild_storage_id guildID storageID)) in
  resolve tt.

Definition restoreGuildInvites (guildID currentStorageID : string) : Promise unit :=
  await guildStorages := fetchGuildStorages guildID in
  let latestStorageID := latest_other_storage guildStorages currentStorageID in
  restoreGuildStorage guildID latestStorageID.

(** *** Guild settings *)

(** [INSERT INTO guilds (...) VALUES ($1, 'en-US', '+', null, null, $2)
     RETURNING guild_storage_id] *)
Definition insert_default_guild (guildID storageID : string) (db : Postgres)
  : list (gmap string jsval) * Postgres :=
  ([ {[ "guild_storage_id" := JStr storageID ]} ],
   sql_insert "guilds"
     {[ "guild_id" := JStr guildID;
        "guild_language" := JStr "en-US";
        "guild_prefix" := JStr "+";
        "guild_cmd_channel" := JNull;
        "guild_fake_threshold" := JNull;
        "guild_storage_id" := JStr storageID ]} db).

Definition fetchGuildSettings (guildID : string) : Promise jsval :=
  await redisData := RedisHandler.getHashFields (key_guild guildID) in
  if truthy (hash_field redisData "guildID") then
    resolve (JObj
      [("guildID", hash_field redisData "guildID");
       ("storageID", hash_field redisData "storageID");
       ("language", hash_field redisData "language");
       ("prefix", hash_field redisData "prefix");
       ("cmdChannel", js_or (hash_field redisData "cmdChannel") JNull);
       ("fakeThreshold",
         if truthy (hash_field redisData "fakeThreshold")
         then parseInt (hash_field redisData "fakeThreshold") else JNull)])
  else
    await selected := query PgSelect "guilds"
        (fun db => (sql_select "guilds" (where_eq "guild_id" (JStr guildID)) db, db)) in
    await rows :=
      match selected with
      | [] =>
          await generated := generateStorageID in
          await inserted := query PgInsert "guilds"
              (insert_default_guild guildID generated) in
          await storageID := first_row inserted "guild_storage_id" in
          await createdAt := get_now in
          await_ query PgInsert "guild_storages"
              (insert_guild_storage guildID storageID createdAt) in
          resolve inserted
      | _ :: _ => resolve selected
      end in
    await row0 := lift_option (head rows) in
    let formattedGuildSettings :=
      [("guildID", js_col row0 "guild_id");
       ("storageID", js_col row0 "guild_storage_id");
       ("language", js_col row0 "guild_language");
       ("prefix", js_col row0 "guild_prefix");
       ("cmdChannel", js_col row0 "guild_cmd_channel");
       ("fakeThreshold", js_col row0 "guild_fake_threshold")] in
    await_ detach (RedisHandler.setHash (key_guild guildID) formattedGuildSettings) in
    resolve (JObj formattedGuildSettings).

Definition updateGuildSetting (guildID settingName : string)
    (newSettingValue : jsval) : Promise unit :=
  if negb (includes guild_setting_names (snakeCase settingName))
  then reject (Error "unknown_guild_setting")
  else
    await_ all2
        (RedisHandler.setHash (key_guild guildID) [(settingName, newSettingValue)])
        (query PgUpdate "guilds"
           (fun db => (tt, sql_update "guilds" (where_eq "guild_id" (JStr guildID))
                             ("guild_" +:+ snakeCase settingName)
                             newSettingValue db))) in
    resolve tt.

(** *** Alerts *)

Definition alert_row_matches (guildID : string) (alertID : jsval)
    (r : gmap string jsval) : bool :=
  where_eq "id" alertID r && where_eq "guild_id" (JStr guildID) r.

Definition updateGuildAlert (guildID : string) (alertID : jsval)
    (settingName : string) (newSettingValue : jsval) : Promise unit :=
  if negb (includes alert_setting_names (snakeCase settingName))
  then reject (Error "unknown_guild_alert_setting")
  else
    await_ all2
        (RedisHandler.delete (key_alerts guildID))
        (query PgUpdate "guild_alerts"
           (fun db => (tt, sql_update "guild_alerts"
                             (alert_row_matches guildID alertID)
                             (snakeCase settingName) newSettingValue db))) in
    resolve tt.

(** [INSERT INTO guild_alerts (...) VALUES ($1, $2, $3, $4, $5)
     RETURNING id] *)
Definition insert_guild_alert (guildID : string)
    (inviteCount channelID message type : jsval) (db : Postgres)
  : list (gmap string jsval) * Postgres :=
  let id := JNum (seq_value db "guild_alerts_id_seq") in
  ([ {[ "id" := id ]} ],
   seq_advance "guild_alerts_id_seq"
     (sql_insert "guild_alerts"
        {[ "id" := id;
           "guild_id" := JStr guildID;
           "invite_count" := pg_param inviteCount;
           "channel_id" := pg_param channelID;
           "message" := pg_param message;
           "alert_type" := pg_param type ]} db)).

Definition addGuildAlert (guildID : string)
    (inviteCount channelID message type : jsval) : Promise unit :=
  await rows := query PgInsert "guild_alerts"
      (insert_guild_alert guildID inviteCount channelID message type) in
  await alertID := first_row rows "id" in
  await alerts := RedisHandler.getString (key_alerts guildID) in
  if negb (truthy alerts) then resolve tt
  else
    await items := lift_option (iterate alerts) in
    let newAlerts :=
      items ++ [JObj [("id", alertID); ("guildID", JStr guildID);
                      ("inviteCount", inviteCount); ("channelID", channelID);
                      ("message", message); ("type", type)]] in
    RedisHandler.setString (key_alerts guildID) (JArr newAlerts).

Definition removeGuildAlert (guildID : string) (alertID : jsval) : Promise unit :=
  await_ all2
      (await alerts := RedisHandler.getString (key_alerts guildID) in
       if negb (truthy alerts) then resolve tt
       else
         await items := lift_option (array_of alerts) in
         let newAlerts :=
           List.filter (fun alert => negb (strict_eq (js_get alert "id") alertID))
                       items in
         RedisHandler.setString (key_alerts guildID) (JArr newAlerts))
      (query PgDelete "guild_alerts"
         (fun db => (tt, sql_delete "guild_alerts"
                           (alert_row_matches guildID alertID) db))) in
  resolve tt.

Definition fetchGuildAlerts (guildID : string) : Promise jsval :=
  await redisData := RedisHandler.getString (key_alerts guildID) in
  if truthy redisData then
    await items := lift_option (array_of redisData) in
    resolve (JArr (List.map (fun data =>
               JObj [("id", parseInt (js_get data "id"));
                     ("guildID", js_get data "guildID");
                     ("inviteCount", parseInt (js_get data "inviteCount"));
                     ("channelID", js_get data "channelID");
                     ("message", js_get data "message");
                     ("type", js_get data "type")]) items))
  else
    await rows := query PgSelect "guild_alerts"
        (fun db => (sql_select "guild_alerts"
                      (where_eq "guild_id" (JStr guildID)) db, db)) in
    let formattedAlerts :=
      JArr (List.map (fun row =>
              JObj [("id", js_col row "id");
                    ("guildID", js_col row "guild_id");
                    ("inviteCount", js_col row "invite_count");
                    ("channelID", js_col row "channel_id");
                    ("message", js_col row "message");
                    ("type", js_col row "alert_type")]) rows) in
    await_ detach (RedisHandler.setString (key_alerts guildID) formattedAlerts) in
    resolve formattedAlerts.

(** *** Plugins *)

Definition plugin_row_matches (guildID pluginName : string)
    (r : gmap string jsval) : bool :=
  where_eq "plugin_name" (JStr pluginName) r && where_eq "guild_id" (JStr guildID) r.

Definition updateGuildPlugin (guildID pluginName : string) (newPluginData : jsval)
  : Promise unit :=
  await_ all2
      (await data := RedisHandler.getString (key_plugins guildID) in
       await items := lift_option (iterate data) in
       let newFormattedPlugins :=
         List.filter (fun p => negb (strict_eq (js_get p "pluginName")
                                               (JStr pluginName))) items
         ++ [JObj [("guildID", JStr guildID); ("pluginName", JStr pluginName);
                   ("pluginData", newPluginData)]] in
       RedisHandler.setString (key_plugins guildID) (JArr newFormattedPlugins))
      (await rowCount := query PgSelect "guild_plugins"
           (fun db => (List.length (sql_select "guild_plugins"
                                      (plugin_row_matches guildID pluginName) db),
                       db)) in
       if (0 <? rowCount)%nat then
         query PgUpdate "guild_plugins"
           (fun db => (tt, sql_update "guild_plugins"
                             (plugin_row_matches guildID pluginName)
                             "plugin_data" (JSON_parse_stringify newPluginData) db))
       else
         query PgInsert "guild_plugins"
           (fun db => (tt, sql_insert "guild_plugins"
                             {[ "plugin_data" := JSON_parse_stringify newPluginData;
                                "plugin_name" := JStr pluginName;
                                "guild_id" := JStr guildID ]} db))) in
  resolve tt.

(** *** Blacklist *)



(** *** Leaderboard *)

(** The leaderboard statement; a negative LIMIT is refused by the
    server. *)
Definition select_leaderboard (guildID storageID : string) (limit : jsval)
    (db : Postgres) : option (list (gmap string jsval) * Postgres) :=
  let ranked :=
    sql_order_by_desc sql_net
      (sql_select "members"
         (fun r => where_eq "guild_id" (JStr guildID) r
                   && where_eq "storage_id" (JStr storageID) r
                   && (0 <? sql_net r)) db) in
  if truthy limit then
    if num_of limit <? 0 then None
    else Some (take (Z.to_nat (num_of limit)) ranked, db)
  else Some (ranked, db).

Definition fetchGuildLeaderboard (guildID storageID : string) (limit : jsval)
  : Promise jsval :=
  await redisData := RedisHandler.getString (key_leaderboard guildID storageID) in
  if truthy redisData then resolve redisData
  else
    await rows := query_checked PgSelect "members"
        (select_leaderboard guildID storageID limit) in
    let formattedMembers :=
      JArr (List.map (fun row =>
              JObj [("guildID", js_col row "guild_id");
                    ("userID", js_col row "user_id");
                    ("invites",
                      JNum (num_of (js_col row "invites_regular")
                            + num_of (js_col row "invites_bonus")
                            - num_of (js_col row "invites_leaves")
                            - num_of (js_col row "invites_fake")));
                    ("regular", js_col row "invites_regular");
                    ("leaves", js_col row "invites_leaves");
                    ("bonus", js_col row "invites_bonus");
                    ("fake", js_col row "invites_fake")]) rows) in
    await_ detach (RedisHandler.setString (key_leaderboard guildID storageID)
                     formattedMembers) in
    await_ detach (RedisHandler.expire (key_leaderboard guildID storageID) 10) in
    resolve formattedMembers.

(** *** Subscriptions *)

(** [INSERT INTO subscriptions (...) VALUES ($1, $2, $3, $4, $5)
     RETURNING id] *)
Definition insert_subscription (expiresAt createdAt : Z)
    (subLabel guildsCount patreonUserID : jsval) (db : Postgres)
  : list (gmap string jsval) * Postgres :=
  let id := JNum (seq_value db "subscriptions_id_seq") in
  ([ {[ "id" := id ]} ],
   seq_advance "subscriptions_id_seq"
     (sql_insert "subscriptions"
        {[ "id" := id;
           "expires_at" := JNum expiresAt;
           "created_at" := JNum createdAt;
           "sub_label" := pg_param subLabel;
           "guilds_count" := pg_param guildsCount;
           "patreon_user_id" := pg_param patreonUserID ]} db)).

(** Default value of a destructured parameter. *)
Definition or_default (v d : jsval) : jsval :=
  match v with
  | JUndefined => d
  | _ => v
  end.

Definition createGuildSubscription (guildID : string)
    (expiresAt createdAt : option Z) (subLabel guildsCount patreonUserID : jsval)
  : Promise jsval :=
  await today := get_now in
  let expiresAt := default today expiresAt in
  let createdAt := default today createdAt in
  let guildsCount := or_default guildsCount (JNum 1) in
  await rows := query PgInsert "subscriptions"
      (insert_subscription expiresAt createdAt subLabel guildsCount patreonUserID) in
  await subID := first_row rows "id" in
  await_ query PgInsert "guilds_subscriptions"
      (fun db => (tt, sql_insert "guilds_subscriptions"
                        {[ "sub_id" := pg_param subID;
                           "guild_id" := JStr guildID ]} db)) in
  await guildSubscriptions :=
    RedisHandler.getString (key_subscriptions guildID) in
  let newSubscription :=
    JObj [("expiresAt", JNum expiresAt); ("createdAt", JNum createdAt);
          ("subLabel", subLabel); ("guildsCount", guildsCount);
          ("patreonUserID", patreonUserID); ("id", subID)] in
  await items := lift_option (iterate guildSubscriptions) in
  await_ RedisHandler.setString (key_subscriptions guildID)
      (JArr (items ++ [newSubscription])) in
  resolve newSubscription.

Definition updateGuildSubscription (subID : jsval) (guildID settingName : string)
    (newSettingValue : jsval) : Promise unit :=
  if negb (includes subscription_setting_names (snakeCase settingName))
  then reject (Error "unknown_guild_setting")
  else
    await_ all2
        (await guildSubscriptions :=
           RedisHandler.getString (key_subscriptions guildID) in
         if truthy guildSubscriptions then
           await items := lift_option (array_of guildSubscriptions) in
           let guildSubscription :=
             default JUndefined
               (List.find (fun sub => strict_eq (js_get sub "id") subID) items) in
           let newSubscription :=
             JObj (assoc_set settingName newSettingValue
                     (spread_fields guildSubscription)) in
           let newGuildSubscriptions :=
             List.filter (fun sub => negb (strict_eq (js_get sub "id") subID)) items
             ++ [newSubscription] in
           RedisHandler.setString (key_subscriptions guildID)
             (JArr newGuildSubscriptions)
         else resolve tt)
        (query PgUpdate "subscriptions"
           (fun db => (tt, sql_update "subscriptions" (where_eq "id" subID)
                             (snakeCase settingName) newSettingValue db))) in
    resolve tt.

(** *** Member events *)



End DatabaseHandler.

(* ===================================================================== *)
(** ** Vocabulary of the statements *)
(* ===================================================================== *)

(** The guilds rows a statement with [WHERE guild_id = $n] sees. *)
Definition guild_rows (db : Postgres) (guildID : string) : list (gmap string jsval) :=
  sql_select "guilds" (where_eq "guild_id" (JStr guildID)) db.

(** A field of the hash cached under a key, if any. *)
Definition cached_field (s : gmap string entry) (k f : string) : option string :=
  match s !! k with
  | Some {| content := RHash h |} => h !! f
  | _ => None
  end.

(** An environment in which no round trip fails, and the empty stores. *)
Definition healthy : Env :=
  {| fails := fun _ => false; now := 1000;
     random36 := fun n => if (n <? 12)%nat then 7%fin else 3%fin |}.

Definition empty_db : Postgres := {| tables := ∅; sequences := ∅ |}.

Definition empty_world : World :=
  {| pg := empty_db; redis := ∅; log := []; rng_pos := 0 |}.

(** An environment in which every Redis command fails while the
    relational store answers. *)
Definition cache_down : Env :=
  {| fails := fun op => match op with OnRedis _ _ => true | OnPg _ _ => false end;
     now := 1000; random36 := fun _ => 7%fin |}.

(** Guild G1 after its first settings fetch (one settings row, one epoch
    [777777777777]), and after a subsequent invite reset (a second epoch
    [333333333333], created one second later). *)
Definition world_G1 : World := (fetchGuildSettings "G1" healthy empty_world).2.

Definition later : Env :=
  {| fails := fails healthy; now := 2000; random36 := random36 healthy |}.

Definition world_G1_reset : World := (removeGuildInvites "G1" later world_G1).2.

(** The [guild_storage_id] column of the guilds rows of a guild. *)
Definition storage_pointers (db : Postgres) (guildID : string) : list jsval :=
  List.map (fun r => col r "guild_storage_id") (guild_rows db guildID).

(** [snakeCase] of change-case on ASCII camel-case identifiers, to run the
    handler on concrete field names: an upper-case letter that follows a
    lower-case letter or a digit starts a new word, and everything is
    lower-cased. *)
Definition is_upper (c : ascii) : bool :=
  let n := nat_of_ascii c in ((65 <=? n) && (n <=? 90))%nat.

Definition is_lower_or_digit (c : ascii) : bool :=
  let n := nat_of_ascii c in
  (((97 <=? n) && (n <=? 122)) || ((48 <=? n) && (n <=? 57)))%nat.

Definition to_lower (c : ascii) : ascii :=
  if is_upper c then ascii_of_nat (nat_of_ascii c + 32) else c.

Fixpoint snake_chars (after_lower : bool) (s : string) : string :=
  match s with
  | EmptyString => EmptyString
  | String c s' =>
      if is_upper c then
        if after_lower then String "_" (String (to_lower c) (snake_chars false s'))
        else String (to_lower c) (snake_chars false s')
      else String c (snake_chars (is_lower_or_digit c) s')
  end.

Definition snakeCase_ascii (s : string) : string := snake_chars false s.

(** The key holds a string, so that a hash command on it is refused. *)
Definition holds_string (s : gmap string entry) (k : string) : bool :=
  match s !! k with
  | Some {| content := RString _ |} => true
  | _ => false
  end.

Definition is_array (v : jsval) : bool :=
  match v with
  | JArr _ => true
  | _ => false
  end.

(** The epochs recorded for a guild, and the members rows counted under
    one of its epochs. *)
Definition epochs (db : Postgres) (guildID : string) : list (gmap string jsval) :=
  sql_select "guild_storages" (where_eq "guild_id" (JStr guildID)) db.



(** Every recorded epoch carries a storage id that is a non-empty string,
    as [generateStorageID] produces them. *)
Definition storage_ids_are_names (db : Postgres) : Prop :=
  ∀ r, r ∈ table db "guild_storages" →
       ∃ s, r !! "storage_id" = Some (JStr s) ∧ s ≠ "".

(** The object [fetchGuildStorages] builds from an epoch row. *)
Definition GuildStorage_of_row (row : gmap string jsval) : jsval :=
  JObj [("guildID", js_col row "guild_id");
        ("storageID", js_col row "storage_id");
        ("createdAt", Date_getTime (js_col row "created_at"))].

(** An epoch of the guild other than the one the caller holds as current. *)
Definition other_epoch (db : Postgres) (guildID currentStorageID : string)
    (r : gmap string jsval) : Prop :=
  r ∈ epochs db guildID ∧ col r "storage_id" ≠ JStr currentStorageID.

Definition created_at (r : gmap string jsval) : Z := num_of (col r "created_at").

(** A members row, and G1 after its reset with two members counted under
    the first epoch. *)
Definition member_row (guildID userID storageID : string)
    (regular leaves bonus fake : Z) : gmap string jsval :=
  {[ "guild_id" := JStr guildID; "user_id" := JStr userID;
     "storage_id" := JStr storageID;
     "invites_regular" := JNum regular; "invites_leaves" := JNum leaves;
     "invites_bonus" := JNum bonus; "invites_fake" := JNum fake ]}.

Definition world_G1_members : World :=
  with_pg
    (sql_insert "members" (member_row "G1" "U2" "777777777777" 3 0 0 1)
       (sql_insert "members" (member_row "G1" "U1" "777777777777" 5 1 2 0)
          (pg world_G1_reset)))
    world_G1_reset.

(** The settings row and the epoch row written for a guild seen for the
    first time, and the settings object of such a row. *)
Definition default_guild_row (guildID storageID : string) : gmap string jsval :=
  {[ "guild_id" := JStr guildID;
     "guild_language" := JStr "en-US";
     "guild_prefix" := JStr "+";
     "guild_cmd_channel" := JNull;
     "guild_fake_threshold" := JNull;
     "guild_storage_id" := JStr storageID ]}.

Definition epoch_row (guildID storageID : string) (createdAt : Z) : gmap string jsval :=
  {[ "guild_id" := JStr guildID;
     "storage_id" := JStr storageID;
     "created_at" := JNum createdAt ]}.

Definition default_settings (guildID storageID : string) : jsval :=
  JObj [("guildID", JStr guildID); ("storageID", JStr storageID);
        ("language", JStr "en-US"); ("prefix", JStr "+");
        ("cmdChannel", JNull); ("fakeThreshold", JNull)].

Definition all_healthy (e : Env) : Prop := ∀ op, fails e op = false.

(** The id [generateStorageID] yields from a given position of the draws. *)
Definition storage_id_at (e : Env) (pos : nat) : string :=
  String.concat ""
    (List.map (fun i => digit36 (random36 e (pos + i)%nat)) (seq 0 12)).

(** The [invites] field of a leaderboard entry, and the net invites its
    own counters give: [regular + bonus - leaves - fake]. *)
Definition entry_invites (entry : jsval) : Z := num_of (js_get entry "invites").





(** The alert object [addGuildAlert] appends to a cached list. *)
Definition new_alert (alertID : jsval) (guildID : string)
    (inviteCount channelID message type : jsval) : jsval :=
  JObj [("id", alertID); ("guildID", JStr guildID);
        ("inviteCount", inviteCount); ("channelID", channelID);
        ("message", message); ("type", type)].

(** The key holds the JSON text of a value. *)
Definition cached_json (s : gmap string entry) (key : string) : option jsval :=
  match s !! key with
  | Some {| content := RString d |} => Some d
  | _ => None
  end.

(** Round trips issued by an operation started in [w] and ended in [w']. *)
Definition round_trips (w w' : World) : list store_op :=
  drop (List.length (log w)) (log w').

(** G1 with its (empty) alert list cached by a first [fetchGuildAlerts]. *)
Definition world_G1_alerts_cached : World := (fetchGuildAlerts "G1" healthy world_G1).2.

(* ===================================================================== *)
(** ** DatabaseHandler: members, invites, payments and the read paths *)
(* ===================================================================== *)

(** JavaScript [+] and [-] on operands that are not strings: [null] counts
    as 0, booleans as 0 and 1, [undefined] and [NaN] make the result
    [NaN].  The operands here are integer columns and results of
    [parseInt]. *)
Definition to_number (v : jsval) : option Z :=
  match v with
  | JNum n => Some n
  | JNull => Some 0
  | JBool true => Some 1
  | JBool false => Some 0
  | _ => None
  end.

Definition js_plus (a b : jsval) : jsval :=
  match to_number a, to_number b with
  | Some x, Some y => JNum (x + y)
  | _, _ => JNaN
  end.

Definition js_minus (a b : jsval) : jsval :=
  match to_number a, to_number b with
  | Some x, Some y => JNum (x - y)
  | _, _ => JNaN
  end.

(** [await Promise.all(ps)] for promises created in list order. *)
Fixpoint all_list {A} (ps : list (Promise A)) : Promise (list A) :=
  match ps with
  | [] => resolve []
  | p :: ps' =>
      fun e w =>
        let '(o, w1) := p e w in
        let '(os, w2) := all_list ps' e w1 in
        match o, os with
        | Resolved a, Resolved l => (Resolved (a :: l), w2)
        | Rejected err, _ => (Rejected err, w2)
        | _, Rejected err => (Rejected err, w2)
        end
  end.

(** *** RedisHandler.incrHashBy *)

(** The integers HINCRBY accepts as the current value of a field: "0", or
    an optional minus sign and digits that do not start with 0 (the
    64-bit range is not modelled). *)
Definition all_digits (s : string) : bool :=
  forallb (fun c => bool_decide (is_Some (digit_of c))) (String.list_ascii_of_string s).

Definition canonical_digits (s : string) : option Z :=
  match s with
  | String c r =>
      match digit_of c with
      | Some d => if (0 <? d) && all_digits r then parse_digits None s else None
      | None => None
      end
  | EmptyString => None
  end.

Definition redis_int (s : string) : option Z :=
  if String.eqb s "0" then Some 0
  else match s with
       | String "-" s' => Z.opp <$> canonical_digits s'
       | _ => canonical_digits s
       end.

(** HINCRBY: an absent key or field counts as 0; a field that does not
    hold an integer, or a key that holds a string, is an error reply. *)
Definition redis_hincrby (k f : string) (n : Z) (s : gmap string entry)
  : option (gmap string entry) :=
  match s !! k with
  | None => Some (<[k := {| content := RHash {[ f := pretty n ]}; ttl := None |}]> s)
  | Some {| content := RHash h; ttl := t |} =>
      match h !! f with
      | None => Some (<[k := {| content := RHash (<[f := pretty n]> h); ttl := t |}]> s)
      | Some v =>
          x ← redis_int v;
          Some (<[k := {| content := RHash (<[f := pretty (x + n)]> h); ttl := t |}]> s)
      end
  | Some {| content := RString _ |} => None
  end.

(** [incrHashBy(key, field, num)]: one write to a field of the hash; the
    round trip is recorded under the hash-write label. *)
Definition incrHashBy (key field : string) (num : Z) : Promise unit :=
  command RHSet key (fun s => s' ← redis_hincrby key field num s; Some (tt, s')).

(** *** Members and invites *)

Definition key_member (userID guildID storageID : string) : string :=
  "member_" +:+ userID +:+ "_" +:+ guildID +:+ "_" +:+ storageID.

Definition createGuildMember (userID guildID storageID : string) : Promise unit :=
  await_ all2
      (RedisHandler.setHash (key_member userID guildID storageID)
         [("notCreated", JBool false)])
      (query PgInsert "members"
         (fun db => (tt, sql_insert "members"
                           {[ "guild_id" := JStr guildID;
                              "user_id" := JStr userID;
                              "storage_id" := JStr storageID;
                              "invites_fake" := JNum 0;
                              "invites_leaves" := JNum 0;
                              "invites_bonus" := JNum 0;
                              "invites_regular" := JNum 0 ]} db))) in
  resolve tt.

Definition member_row_matches (userID guildID storageID : string)
    (r : gmap string jsval) : bool :=
  where_eq "guild_id" (JStr guildID) r
  && where_eq "user_id" (JStr userID) r
  && where_eq "storage_id" (JStr storageID) r.

Definition fetchGuildMember (userID guildID storageID : string) : Promise jsval :=
  await redisData :=
    RedisHandler.getHashFields (key_member userID guildID storageID) in
  if truthy (hash_field redisData "userID") then
    resolve (JObj
      [("userID", hash_field redisData "userID");
       ("guildID", hash_field redisData "guildID");
       ("storageID", hash_field redisData "storageID");
       ("fake", parseInt (hash_field redisData "fake"));
       ("leaves", parseInt (hash_field redisData "leaves"));
       ("bonus", parseInt (hash_field redisData "bonus"));
       ("regular", parseInt (hash_field redisData "regular"));
       ("notCreated",
         JBool (strict_eq (hash_field redisData "notCreated") (JStr "true")));
       ("invites",
         js_minus
           (js_minus
              (js_plus (parseInt (hash_field redisData "regular"))
                       (parseInt (hash_field redisData "bonus")))
              (parseInt (hash_field redisData "leaves")))
           (parseInt (hash_field redisData "fake")))])
  else
    await rows := query PgSelect "members"
        (fun db => (sql_select "members"
                      (member_row_matches userID guildID storageID) db, db)) in
    let counter c :=
      match head rows with
      | Some row0 => js_col row0 c
      | None => JNum 0
      end in
    let formattedMember :=
      [("userID", JStr userID);
       ("guildID", JStr guildID);
       ("storageID", JStr storageID);
       ("fake", counter "invites_fake");
       ("leaves", counter "invites_leaves");
       ("bonus", counter "invites_bonus");
       ("regular", counter "invites_regular");
       ("notCreated", JBool (bool_decide (head rows = None)))] in
    await_ detach (RedisHandler.setHash (key_member userID guildID storageID)
                     formattedMember) in
    resolve (JObj (formattedMember
                   ++ [("invites",
                         js_minus
                           (js_minus
                              (js_plus (counter "invites_regular")
                                       (counter "invites_bonus"))
                              (counter "invites_leaves"))
                           (counter "invites_fake"))])).

(** The counters of the members table, as [createGuildMember] inserts
    them: [invites_<type>] is a column for these types only. *)
Definition invite_types : list string := ["fake"; "leaves"; "bonus"; "regular"].

(** [SET c = c + $1] on one row; NULL stays NULL. *)
Definition add_to_column (c : string) (n : Z) (r : gmap string jsval)
  : gmap string jsval :=
  <[c := match col r c with
         | JNum x => JNum (x + n)
         | _ => JNull
         end]> r.

(** [UPDATE members SET invites_<type> = invites_<type> + $1 WHERE ...];
    the server refuses the statement when the column does not exist. *)
Definition update_invites (cond : gmap string jsval → bool) (type : string) (n : Z)
    (db : Postgres) : option (unit * Postgres) :=
  if includes invite_types type then
    Some (tt, set_table "members"
                (List.map (fun r => if cond r
                                    then add_to_column ("invites_" +:+ type) n r
                                    else r)
                          (table db "members")) db)
  else None.

Definition addInvites (userID guildID storageID : string) (number : Z)
    (type : string) : Promise unit :=
  await_ detach (RedisHandler.delete (key_leaderboard guildID storageID)) in
  await_ all2
      (incrHashBy (key_member userID guildID storageID) type number)
      (query_checked PgUpdate "members"
         (update_invites (fun r => where_eq "user_id" (JStr userID) r
                                   && where_eq "guild_id" (JStr guildID) r
                                   && where_eq "storage_id" (JStr storageID) r)
            type number)) in
  resolve tt.

Definition addGuildInvites (usersID : list string) (guildID storageID : string)
    (number : Z) (type : string) : Promise unit :=
  await_ detach (RedisHandler.delete (key_leaderboard guildID storageID)) in
  await_ all2
      (all_list (List.map (fun userID =>
                   incrHashBy (key_member userID guildID storageID) type number)
                 usersID))
      (query_checked PgUpdate "members"
         (update_invites (fun r => where_eq "guild_id" (JStr guildID) r
                                   && where_eq "storage_id" (JStr storageID) r)
            type number)) in
  resolve tt.

(** *** Cached collections: read paths *)

Definition fetchGuildPlugins (guildID : string) : Promise jsval :=
  await redisData := RedisHandler.getString (key_plugins guildID) in
  if truthy redisData then resolve redisData
  else
    await rows := query PgSelect "guild_plugins"
        (fun db => (sql_select "guild_plugins"
                      (where_eq "guild_id" (JStr guildID)) db, db)) in
    let formattedPlugins :=
      JArr (List.map (fun row =>
              JObj [("guildID", js_col row "guild_id");
                    ("pluginName", js_col row "plugin_name");
                    ("pluginData", js_col row "plugin_data")]) rows) in
    await_ detach (RedisHandler.setString (key_plugins guildID) formattedPlugins) in
    resolve formattedPlugins.

Definition fetchGuildBlacklistedUsers (guildID : string) : Promise jsval :=
  await redisData := RedisHandler.getString (key_blacklisted guildID) in
  if truthy redisData then resolve redisData
  else
    await rows := query PgSelect "guild_blacklisted_users"
        (fun db => (sql_select "guild_blacklisted_users"
                      (where_eq "guild_id" (JStr guildID)) db, db)) in
    let formattedBlacklistedUsers :=
      JArr (List.map (fun row => js_col row "user_id") rows) in
    await_ detach (RedisHandler.setString (key_blacklisted guildID)
                     formattedBlacklistedUsers) in
    resolve formattedBlacklistedUsers.

Definition fetchGuildMemberEvents (userID guildID : string) : Promise jsval :=
  await redisData := RedisHandler.getString (key_events userID guildID) in
  if truthy redisData then resolve redisData
  else
    await rows := query PgSelect "invited_member_events"
        (fun db => (sql_select "invited_member_events"
                      (fun r => (where_eq "user_id" (JStr userID) r
                                 || where_eq "inviter_user_id" (JStr userID) r)
                                && where_eq "guild_id" (JStr guildID) r) db, db)) in
    let formattedEvents :=
      JArr (List.map (fun row =>
              JObj [("userID", js_col row "user_id");
                    ("guildID", js_col row "guild_id");
                    ("eventType", js_col row "event_type");
                    ("eventDate", Date_getTime (js_col row "event_date"));
                    ("joinType", js_col row "join_type");
                    ("inviterID", js_col row "inviter_user_id");
                    ("inviteData", js_col row "invite_data");
                    ("storageID", js_col row "storage_id");
                    ("joinFake", js_col row "join_fake")]) rows) in
    await_ detach (RedisHandler.setString (key_events userID guildID)
                     formattedEvents) in
    resolve formattedEvents.

(** *** Subscriptions and payments *)

(** [FROM a INNER JOIN b ON on]: the pairs of rows that satisfy [on], in
    the order of a nested loop over [a] then [b]. *)
Definition sql_inner_join (a b : list (gmap string jsval))
    (on : gmap string jsval → gmap string jsval → bool)
  : list (gmap string jsval * gmap string jsval) :=
  flat_map (fun ra => List.map (fun rb => (ra, rb)) (List.filter (on ra) b)) a.

(** [SELECT s.* FROM subscriptions s
     INNER JOIN guilds_subscriptions ON guilds_subscriptions.sub_id = s.id
     WHERE guilds_subscriptions.guild_id = $1] *)
Definition select_guild_subscriptions (guildID : string) (db : Postgres)
  : list (gmap string jsval) :=
  List.map fst
    (List.filter (fun sl => where_eq "guild_id" (JStr guildID) sl.2)
       (sql_inner_join (table db "subscriptions") (table db "guilds_subscriptions")
          (fun s l => sql_eq (col l "sub_id") (col s "id")))).

(** The body of [fetchGuildSubscriptions] from the reply of its GET on. *)
Definition subscriptions_after_read (guildID : string) (redisData : jsval)
  : Promise jsval :=
  if truthy redisData then resolve redisData
  else
    await rows := query PgSelect "subscriptions"
        (fun db => (select_guild_subscriptions guildID db, db)) in
    let formattedGuildSubscriptions :=
      JArr (List.map (fun row =>
              JObj [("id", js_col row "id");
                    ("expiresAt", js_col row "expires_at");
                    ("createdAt", js_col row "created_at");
                    ("subLabel", js_col row "sub_label");
                    ("guildsCount", js_col row "guilds_count");
                    ("patreonUserID", js_col row "patreon_user_id");
                    ("cancelled", js_col row "cancelled");
                    ("subInvalidated", js_col row "sub_invalidated")]) rows) in
    await_ detach (RedisHandler.setString (key_subscriptions guildID)
                     formattedGuildSubscriptions) in
    resolve formattedGuildSubscriptions.

Definition fetchGuildSubscriptions (guildID : string) : Promise jsval :=
  await redisData := RedisHandler.getString (key_subscriptions guildID) in
  subscriptions_after_read guildID redisData.

Definition formatPayment (paymentRow : gmap string jsval) : jsval :=
  JObj [("id", js_col paymentRow "id");
        ("payerDiscordID", js_col paymentRow "payer_discord_id");
        ("amount", js_col paymentRow "amount");
        ("createdAt", js_col paymentRow "created_at");
        ("type", js_col paymentRow "type");
        ("transactionID", js_col paymentRow "transaction_id");
        ("details", js_col paymentRow "details");
        ("modDiscordID", js_col paymentRow "mod_discord_id");
        ("signupID", js_col paymentRow "signup_id");
        ("payerEmail", js_col paymentRow "payer_email");
        ("payerDiscordUsername", js_col paymentRow "payer_discord_username")].

(** [SELECT p.* FROM payments p
     INNER JOIN subscriptions_payments sp ON sp.payment_id = p.id
     WHERE sp.sub_id = $1] *)
Definition select_subscription_payments (subID : jsval) (db : Postgres)
  : list (gmap string jsval) :=
  List.map fst
    (List.filter (fun pl => where_eq "sub_id" subID pl.2)
       (sql_inner_join (table db "payments") (table db "subscriptions_payments")
          (fun p l => sql_eq (col l "payment_id") (col p "id")))).

Definition fetchSubscriptionPayments (subID : jsval) : Promise (list jsval) :=
  await rows := query PgSelect "payments"
      (fun db => (select_subscription_payments subID db, db)) in
  resolve (List.map formatPayment rows).

(** [INSERT INTO payments (...) VALUES ($1, ..., $10) RETURNING *] *)
Definition insert_payment (payerDiscordID payerDiscordUsername payerEmail amount : jsval)
    (createdAt : Z) (type transactionID details signupID modDiscordID : jsval)
    (db : Postgres) : list (gmap string jsval) * Postgres :=
  let row : gmap string jsval :=
    {[ "id" := JNum (seq_value db "payments_id_seq");
       "payer_discord_id" := pg_param payerDiscordID;
       "payer_discord_username" := pg_param payerDiscordUsername;
       "payer_email" := pg_param payerEmail;
       "amount" := pg_param amount;
       "created_at" := JNum createdAt;
       "type" := pg_param type;
       "transaction_id" := pg_param transactionID;
       "details" := JSON_parse_stringify details;
       "signup_id" := pg_param signupID;
       "mod_discord_id" := pg_param modDiscordID ]} in
  ([row], seq_advance "payments_id_seq" (sql_insert "payments" row db)).

Definition createSubscriptionPayment (subID : jsval)
    (payerDiscordID payerDiscordUsername payerEmail amount : jsval)
    (createdAt : option Z) (type transactionID details signupID modDiscordID : jsval)
  : Promise jsval :=
  await today := get_now in
  let createdAt := default today createdAt in
  let details := or_default details (JObj []) in
  await rows := query PgInsert "payments"
      (insert_payment payerDiscordID payerDiscordUsername payerEmail amount
         createdAt type transactionID details signupID modDiscordID) in
  await paymentID := first_row rows "id" in
  await_ query PgInsert "subscriptions_payments"
      (fun db => (tt, sql_insert "subscriptions_payments"
                        {[ "sub_id" := pg_param subID;
                           "payment_id" := pg_param paymentID ]} db)) in
  lift_option (formatPayment <$> head rows).

(** [p.type.startsWith(prefix)]; a [type] that is not a string has no such
    method. *)
Definition type_starts_with (prefix : string) (p : jsval) : option bool :=
  match js_get p "type" with
  | JStr s => Some (String.prefix prefix s)
  | _ => None
  end.

(** [l.some(f)] and [l.filter(f)] for a callback that may throw. *)
Fixpoint some_throwing (f : jsval → option bool) (l : list jsval) : option bool :=
  match l with
  | [] => Some false
  | x :: l' =>
      match f x with
      | None => None
      | Some true => Some true
      | Some false => some_throwing f l'
      end
  end.

Fixpoint filter_throwing (f : jsval → option bool) (l : list jsval)
  : option (list jsval) :=
  match l with
  | [] => Some []
  | x :: l' =>
      match f x with
      | None => None
      | Some b =>
          match filter_throwing f l' with
          | None => None
          | Some r => Some (if b then x :: r else r)
          end
      end
  end.

Definition fetchGuildSubscriptionStatus (guildID : string) : Promise jsval :=
  await guildSubscriptions := fetchGuildSubscriptions guildID in
  await subs := lift_option (array_of guildSubscriptions) in
  await lists := all_list (List.map (fun sub => fetchSubscriptionPayments (js_get sub "id"))
                             subs) in
  let payments := List.concat lists in
  await isPayPal :=
    lift_option (some_throwing (type_starts_with "paypal_dash_signup") payments) in
  await signups :=
    lift_option (filter_throwing (type_starts_with "paypal_dash_signup") payments) in
  await cancels :=
    lift_option (filter_throwing (type_starts_with "paypal_dash_cancel") payments) in
  resolve (JObj [("isPayPal", JBool isPayPal);
                 ("isCancelled",
                   JBool (List.length cancels <? List.length signups)%nat)]).

(** [new Date(v).getTime() > Date.now()] *)
Definition expires_after (v : jsval) (today : Z) : bool :=
  match to_number v with
  | Some t => today <? t
  | None => false
  end.

Definition premium_status (today : Z) (guildID : string) (subscriptions : list jsval)
  : jsval :=
  JObj [("guildID", JStr guildID);
        ("isPremium",
          JBool (existsb (fun sub => expires_after (js_get sub "expiresAt") today)
                         subscriptions));
        ("isTrial",
          JBool (existsb (fun sub =>
                            strict_eq (js_get sub "subLabel") (JStr "Trial Version")
                            && expires_after (js_get sub "expiresAt") today)
                         subscriptions))].

Definition fetchGuildsPremiumStatuses (guildsID : list string) : Promise (list jsval) :=
  (* every call of [fetchGuildSubscriptions] is started and sends its GET *)
  await reads :=
    all_list (List.map (fun g => settle (RedisHandler.getString (key_subscriptions g)))
                guildsID) in
  (* each call resumes on its reply *)
  await guildsSubscriptions :=
    all_list (List.map (fun gr => and_then gr.2 (subscriptions_after_read gr.1))
                (zip guildsID reads)) in
  await today := get_now in
  await lists := lift_option (mapM array_of guildsSubscriptions) in
  resolve (List.map (fun gs => premium_status today gs.1 gs.2) (zip guildsID lists)).

Definition fetchPremiumGuildIDs : Promise (list jsval) :=
  await rows := query PgSelect "guilds_subscriptions"
      (fun db => (table db "guilds_subscriptions", db)) in
  resolve (List.map (fun row => js_col row "guild_id") rows).

Definition fetchTransactionData (transactionID : jsval) : Promise jsval :=
  await rows := query PgSelect "payments"
      (fun db => (sql_select "payments" (where_eq "transaction_id" transactionID) db,
                  db)) in
  let paymentID := first_row_opt rows "id" in
  if negb (truthy paymentID) then resolve JNull
  else
    await rows := query PgSelect "subscriptions_payments"
        (fun db => (sql_select "subscriptions_payments"
                      (where_eq "payment_id" paymentID) db, db)) in
    let subID := first_row_opt rows "sub_id" in
    if negb (truthy subID) then resolve JNull
    else
      await rows := query PgSelect "guilds_subscriptions"
          (fun db => (sql_select "guilds_subscriptions" (where_eq "sub_id" subID) db,
                      db)) in
      let guildID := first_row_opt rows "guild_id" in
      if negb (truthy guildID) then resolve JNull
      else resolve (JObj [("subID", subID); ("guildID", guildID)]).

(* ===================================================================== *)
(** ** Vocabulary of the further statements *)
(* ===================================================================== *)

(** The member object [fetchGuildMember] returns for integer counters. *)
Definition member_object (userID guildID storageID : string)
    (fake leaves bonus regular : Z) (notCreated : bool) : jsval :=
  JObj [("userID", JStr userID); ("guildID", JStr guildID);
        ("storageID", JStr storageID);
        ("fake", JNum fake); ("leaves", JNum leaves);
        ("bonus", JNum bonus); ("regular", JNum regular);
        ("notCreated", JBool notCreated);
        ("invites", JNum (regular + bonus - leaves - fake))].

(** The members rows a fetch of one member sees. *)
Definition member_rows (db : Postgres) (userID guildID storageID : string)
  : list (gmap string jsval) :=
  sql_select "members" (member_row_matches userID guildID storageID) db.

(** The four counters of a members row hold integers. *)
Definition integer_counters (r : gmap string jsval) (fake leaves bonus regular : Z)
  : Prop :=
  r !! "invites_fake" = Some (JNum fake)
  ∧ r !! "invites_leaves" = Some (JNum leaves)
  ∧ r !! "invites_bonus" = Some (JNum bonus)
  ∧ r !! "invites_regular" = Some (JNum regular).

(** The member is not cached: the key is absent, or holds a hash without
    a [userID] field. *)
Definition member_uncached (s : gmap string entry) (key : string) : Prop :=
  ∃ h, redis_hgetall key s = Some h ∧ h !! "userID" = None.


(** A counter of the member as the store path of [fetchGuildMember] reads
    it: the column of the first row, 0 without a row. *)
Definition member_counter (rows : list (gmap string jsval)) (c : string) : jsval :=
  match head rows with
  | Some row0 => js_col row0 c
  | None => JNum 0
  end.

(** The fields [fetchGuildMember] writes to the member's hash. *)
Definition member_fields (userID guildID storageID : string)
    (rows : list (gmap string jsval)) : list (string * jsval) :=
  [("userID", JStr userID); ("guildID", JStr guildID); ("storageID", JStr storageID);
   ("fake", member_counter rows "invites_fake");
   ("leaves", member_counter rows "invites_leaves");
   ("bonus", member_counter rows "invites_bonus");
   ("regular", member_counter rows "invites_regular");
   ("notCreated", JBool (bool_decide (head rows = None)))].


(* ===================================================================== *)
(** ** Stores: basic facts *)
(* ===================================================================== *)

Lemma table_set_table_eq t rows db : table (set_table t rows db) t = rows.
Proof. unfold table, set_table; simpl. by rewrite lookup_insert_eq. Qed.

Lemma table_set_table_ne t t' rows db :
  t ≠ t' → table (set_table t rows db) t' = table db t'.
Proof. intros Hne. unfold table, set_table; simpl. by rewrite lookup_insert_ne. Qed.


Lemma table_sql_insert_eq t r db :
  table (sql_insert t r db) t = table db t ++ [r].
Proof. apply table_set_table_eq. Qed.

Lemma table_sql_insert_ne t t' r db :
  t ≠ t' → table (sql_insert t r db) t' = table db t'.
Proof. apply table_set_table_ne. Qed.

Lemma table_sql_update_ne t t' cond c v db :
  t ≠ t' → table (sql_update t cond c v db) t' = table db t'.
Proof. apply table_set_table_ne. Qed.

Lemma table_sql_update_eq t cond c v db :
  table (sql_update t cond c v db) t
  = List.map (fun r => if cond r then <[c := pg_param v]> r else r) (table db t).
Proof. apply table_set_table_eq. Qed.

Lemma sql_eq_JStr v s : sql_eq v (JStr s) = true ↔ v = JStr s.
Proof.
  destruct v; simpl; try (split; [discriminate | discriminate]).
  rewrite String.eqb_eq. split; congruence.
Qed.

Lemma strict_eq_JStr v s : strict_eq v (JStr s) = true ↔ v = JStr s.
Proof.
  destruct v; simpl; try (split; [discriminate | discriminate]).
  rewrite String.eqb_eq. split; congruence.
Qed.

Lemma round_trips_app w w' ops : log w' = log w ++ ops → round_trips w w' = ops.
Proof. intros H. unfold round_trips. rewrite H. by rewrite drop_app_length. Qed.

(** An UPDATE that matches no row leaves the table as it is. *)
Lemma update_no_match {A} (cond : A → bool) (f : A → A) (l : list A) :
  List.filter cond l = [] →
  List.map (fun r => if cond r then f r else r) l = l.
Proof.
  induction l as [|a l IH]; simpl; [done|].
  destruct (cond a); [discriminate|]. intros H. by rewrite IH.
Qed.

(** An UPDATE of a column the condition does not read matches the same
    rows before and after. *)
Lemma where_eq_insert_ne c c' v x (r : gmap string jsval) :
  c ≠ c' → where_eq c v (<[c' := x]> r) = where_eq c v r.
Proof.
  intros Hne. unfold where_eq, col. by rewrite lookup_insert_ne.
Qed.

(* ===================================================================== *)
(** ** Invite reset on a guild without a settings row *)
(* ===================================================================== *)

(** C10.  When the guilds row of [guildID] is absent, [removeGuildInvites]
    rejects instead of returning a storage id, and it does so right after
    the UPDATE round trip: no Redis command was sent, no INSERT was issued,
    the cache and every table (the epochs in particular) are as before. *)
Theorem removeGuildInvites_absent_guild (guildID : string) (e : Env) (w : World) :
  guild_rows (pg w) guildID = [] →
  ∃ err w',
    removeGuildInvites guildID e w = (Rejected err, w')
    ∧ redis w' = redis w
    ∧ (∀ t, table (pg w') t = table (pg w) t)
    ∧ table (pg w') "guild_storages" = table (pg w) "guild_storages"
    ∧ log w' = log w ++ [OnPg PgUpdate "guilds"].
Proof.
  intros Habsent.
  unfold removeGuildInvites, bind, generateStorageID, query, query_checked.
  cbn [fst snd pg redis log rng_pos logged].
  destruct (fails e (OnPg PgUpdate "guilds")) eqn:Hf.
  - eexists _, _. split; [reflexivity|]. cbn. auto.
  - unfold update_guild_storage_id.
    set (db' := sql_update _ _ _ _ _).
    assert (Htab : ∀ t, table db' t = table (pg w) t).
    { intros t. destruct (decide ("guilds" = t)) as [<-|Hne].
      - unfold db'. rewrite table_sql_update_eq. by apply update_no_match.
      - unfold db'. by rewrite table_sql_update_ne. }
    assert (Hsel : sql_select "guilds" (where_eq "guild_id" (JStr guildID)) db' = []).
    { unfold sql_select. rewrite Htab. exact Habsent. }
    rewrite Hsel. cbn.
    eexists _, _. split; [reflexivity|]. cbn. auto.
Qed.

Lemma removeGuildInvites_absent_guild_witness :
  ∃ err w',
    removeGuildInvites "G1" healthy empty_world = (Rejected err, w')
    ∧ redis w' = redis empty_world
    ∧ (∀ t, table (pg w') t = table (pg empty_world) t)
    ∧ table (pg w') "guild_storages" = table (pg empty_world) "guild_storages"
    ∧ log w' = log empty_world ++ [OnPg PgUpdate "guilds"].
Proof. apply (removeGuildInvites_absent_guild "G1" healthy empty_world). reflexivity. Defined.

(* ===================================================================== *)
(** ** Restoring a storage epoch *)
(* ===================================================================== *)

Lemma hash_put_single_ne f v g (h : gmap string string) :
  f ≠ g → hash_put [(f, v)] h !! g = h !! g.
Proof. intros Hne. unfold hash_put; simpl. by rewrite lookup_insert_ne. Qed.

(** [setHash] of one field touches nothing but that field of that key. *)
Lemma setHash_single_frame key f v e w :
  let w' := (RedisHandler.setHash key [(f, v)] e w).2 in
  pg w' = pg w
  ∧ (∀ k, k ≠ key → redis w' !! k = redis w !! k)
  ∧ (∀ k g, g ≠ f → cached_field (redis w') k g = cached_field (redis w) k g).
Proof.
  unfold RedisHandler.setHash, command; simpl.
  destruct (fails e _); simpl; [by auto|].
  unfold redis_hset.
  destruct (redis w !! key) as [[[d|h] t]|] eqn:Hk; simpl; [by auto| |].
  - split; [done|]. split.
    + intros k Hne. by rewrite lookup_insert_ne.
    + intros k g Hg. unfold cached_field.
      destruct (decide (key = k)) as [<-|Hne].
      * rewrite lookup_insert_eq, Hk. by apply hash_put_single_ne.
      * by rewrite lookup_insert_ne.
  - split; [done|]. split.
    + intros k Hne. by rewrite lookup_insert_ne.
    + intros k g Hg. unfold cached_field.
      destruct (decide (key = k)) as [<-|Hne].
      * rewrite lookup_insert_eq, Hk.
        transitivity ((∅ : gmap string string) !! g); [by apply hash_put_single_ne|done].
      * by rewrite lookup_insert_ne.
Qed.

(** C9.  [restoreGuildStorage] reassigns the pointer and nothing else: the
    epochs table is untouched (no row added, removed or changed, the epoch
    that was active included), so is every other table and sequence; the
    guilds table keeps its rows in place, a row can differ from its former
    self in the [guild_storage_id] column only, and the rows of other
    guilds are identical; in the cache only the [storageID] field of this
    guild's hash can change. *)
Theorem restoreGuildStorage_frame (guildID : string) (storageID : jsval)
    (e : Env) (w : World) :
  let w' := (restoreGuildStorage guildID storageID e w).2 in
  table (pg w') "guild_storages" = table (pg w) "guild_storages"
  ∧ (∀ t, t ≠ "guilds" → table (pg w') t = table (pg w) t)
  ∧ sequences (pg w') = sequences (pg w)
  ∧ List.length (table (pg w') "guilds") = List.length (table (pg w) "guilds")
  ∧ (∀ i r, table (pg w) "guilds" !! i = Some r →
       ∃ r', table (pg w') "guilds" !! i = Some r'
             ∧ (∀ c, c ≠ "guild_storage_id" → r' !! c = r !! c)
             ∧ (col r "guild_id" ≠ JStr guildID → r' = r))
  ∧ (∀ k, k ≠ key_guild guildID → redis w' !! k = redis w !! k)
  ∧ (∀ k f, f ≠ "storageID" →
       cached_field (redis w') k f = cached_field (redis w) k f).
Proof.
  unfold restoreGuildStorage, bind, all2.
  destruct (RedisHandler.setHash (key_guild guildID) [("storageID", storageID)] e w)
    as [o1 w1] eqn:H1.
  pose proof (setHash_single_frame (key_guild guildID) "storageID" storageID e w) as Hs.
  rewrite H1 in Hs. simpl in Hs. destruct Hs as (Hpg & Hother & Hfield).
  unfold query, query_checked.
  destruct (fails e (OnPg PgUpdate "guilds")) eqn:Hf.
  - destruct o1; simpl; rewrite Hpg;
      (repeat split; auto; intros i r Hr; exists r; auto).
  - unfold update_guild_storage_id.
    set (db' := sql_update "guilds" _ _ _ (pg w1)).
    assert (Hguilds : table db' "guilds"
              = List.map (fun r => if where_eq "guild_id" (JStr guildID) r
                                   then <["guild_storage_id" := pg_param storageID]> r
                                   else r) (table (pg w) "guilds")).
    { unfold db'. by rewrite table_sql_update_eq, Hpg. }
    assert (Hrest : ∀ t, t ≠ "guilds" → table db' t = table (pg w) t).
    { intros t Hne. unfold db'. rewrite table_sql_update_ne, Hpg; auto. }
    assert (Hseq : sequences db' = sequences (pg w)).
    { unfold db'. simpl. by rewrite Hpg. }
    assert (Hgoal :
      table db' "guild_storages" = table (pg w) "guild_storages"
      ∧ (∀ t, t ≠ "guilds" → table db' t = table (pg w) t)
      ∧ sequences db' = sequences (pg w)
      ∧ List.length (table db' "guilds") = List.length (table (pg w) "guilds")
      ∧ (∀ i r, table (pg w) "guilds" !! i = Some r →
           ∃ r', table db' "guilds" !! i = Some r'
                 ∧ (∀ c, c ≠ "guild_storage_id" → r' !! c = r !! c)
                 ∧ (col r "guild_id" ≠ JStr guildID → r' = r))).
    { split; [by apply Hrest|]. split; [done|]. split; [done|].
      rewrite Hguilds. split; [by rewrite length_map|].
      intros i r Hr. rewrite list_lookup_fmap, Hr. simpl.
      eexists; split; [reflexivity|].
      destruct (where_eq "guild_id" (JStr guildID) r) eqn:Hc.
      - split.
        + intros c Hne. by rewrite lookup_insert_ne.
        + intros Hne. exfalso. apply Hne.
          unfold where_eq in Hc. simpl in Hc. by apply sql_eq_JStr.
      - auto. }
    destruct Hgoal as (G1 & G2 & G3 & G4 & G5).
    destruct o1; simpl; repeat split; auto.
Qed.

(* ===================================================================== *)
(** ** Validated field-name updates *)
(* ===================================================================== *)

Lemma includes_elem_of l s : includes l s = true ↔ s ∈ l.
Proof.
  unfold includes. rewrite existsb_exists. split.
  - intros (x & Hin & Heq). apply String.eqb_eq in Heq. subst.
    by apply list_elem_of_In.
  - intros Hin. exists s. split; [by apply list_elem_of_In|apply String.eqb_refl].
Qed.

Lemma includes_not_elem_of l s : s ∉ l → includes l s = false.
Proof.
  intros Hnot. destruct (includes l s) eqn:H; [|done].
  by apply includes_elem_of in H.
Qed.

Example snakeCase_ascii_cmdChannel : snakeCase_ascii "cmdChannel" = "cmd_channel".
Proof. reflexivity. Qed.

Example snakeCase_ascii_storageID : snakeCase_ascii "storageID" = "storage_id".
Proof. reflexivity. Qed.

(** C5.  A field name whose snake-cased form is outside the allow-list of
    the entity makes the update reject with the unknown-setting error and
    leaves the world exactly as it was: both stores and the list of round
    trips issued are unchanged, so no store was touched. *)
Theorem unknown_setting_touches_no_store (snakeCase : string → string)
    (guildID settingName : string) (subID alertID newSettingValue : jsval)
    (e : Env) (w : World) :
  (snakeCase settingName ∉ guild_setting_names →
     updateGuildSetting snakeCase guildID settingName newSettingValue e w
     = (Rejected (Error "unknown_guild_setting"), w))
  ∧ (snakeCase settingName ∉ subscription_setting_names →
       updateGuildSubscription snakeCase subID guildID settingName newSettingValue e w
       = (Rejected (Error "unknown_guild_setting"), w))
  ∧ (snakeCase settingName ∉ alert_setting_names →
       updateGuildAlert snakeCase guildID alertID settingName newSettingValue e w
       = (Rejected (Error "unknown_guild_alert_setting"), w)).
Proof.
  repeat split; intros Hnot;
    unfold updateGuildSetting, updateGuildSubscription, updateGuildAlert;
    by rewrite (includes_not_elem_of _ _ Hnot).
Qed.

Lemma unknown_setting_touches_no_store_witness :
  updateGuildSetting snakeCase_ascii "G1" "guildID" (JStr "G2") healthy empty_world
  = (Rejected (Error "unknown_guild_setting"), empty_world)
  ∧ updateGuildSubscription snakeCase_ascii (JNum 1) "G1" "guildID" (JStr "G2")
      healthy empty_world
    = (Rejected (Error "unknown_guild_setting"), empty_world)
  ∧ updateGuildAlert snakeCase_ascii "G1" (JNum 1) "guildID" (JStr "G2")
      healthy empty_world
    = (Rejected (Error "unknown_guild_alert_setting"), empty_world).
Proof.
  destruct (unknown_setting_touches_no_store snakeCase_ascii "G1" "guildID"
              (JNum 1) (JNum 1) (JStr "G2") healthy empty_world) as (H1 & H2 & H3).
  split; [apply H1|split; [apply H2|apply H3]];
    unfold guild_setting_names, subscription_setting_names, alert_setting_names;
    rewrite !not_elem_of_cons; repeat split;
    try apply not_elem_of_nil; intros H; vm_compute in H; discriminate.
Defined.

(* ===================================================================== *)
(** ** Outcome of the write-through operations *)
(* ===================================================================== *)

Lemma setHash_single_outcome key f v e w :
  is_resolved (RedisHandler.setHash key [(f, v)] e w).1 = true
  ↔ fails e (OnRedis RHSet key) = false ∧ holds_string (redis w) key = false.
Proof.
  unfold RedisHandler.setHash, command, holds_string, redis_hset; simpl.
  destruct (fails e _); simpl; [by intuition|].
  destruct (redis w !! key) as [[[d|h] t]|]; simpl; by intuition.
Qed.

Lemma setHash_pg key data e w : pg (RedisHandler.setHash key data e w).2 = pg w.
Proof.
  unfold RedisHandler.setHash, command.
  destruct (1 <? List.length data)%nat; simpl;
    destruct (fails e _); simpl; try done;
    destruct (redis_hset _ _ _); simpl; done.
Qed.

Lemma all2_resolved {A B} (p1 : Promise A) (p2 : Promise B) e w :
  is_resolved (all2 p1 p2 e w).1 = true
  ↔ is_resolved (p1 e w).1 = true ∧ is_resolved (p2 e (p1 e w).2).1 = true.
Proof.
  unfold all2. destruct (p1 e w) as [o1 w1]; simpl.
  destruct (p2 e w1) as [o2 w2]; simpl.
  destruct o1, o2; simpl; by intuition.
Qed.

Lemma bind_resolve_resolved {A} (p : Promise A) e w :
  is_resolved ((await_ p in resolve tt) e w).1 = is_resolved (p e w).1.
Proof. unfold bind. destruct (p e w) as [[a|err] w']; reflexivity. Qed.

Lemma query_resolved {A} k t (run : Postgres → A * Postgres) e w :
  is_resolved (query k t run e w).1 = negb (fails e (OnPg k t)).
Proof.
  unfold query, query_checked. destruct (fails e _); simpl; [done|].
  by destruct (run (pg w)).
Qed.

Lemma setHash_single_log key f v e w :
  log (RedisHandler.setHash key [(f, v)] e w).2 = log w ++ [OnRedis RHSet key].
Proof.
  unfold RedisHandler.setHash, command; simpl.
  destruct (fails e _); simpl; [done|].
  by destruct (redis_hset _ _ _).
Qed.

Lemma query_log {A} k t (run : Postgres → A * Postgres) e w :
  log (query k t run e w).2 = log w ++ [OnPg k t].
Proof.
  unfold query, query_checked. destruct (fails e _); [done|].
  by destruct (run (pg w)).
Qed.

Lemma all2_world {A B} (p1 : Promise A) (p2 : Promise B) e w :
  (all2 p1 p2 e w).2 = (p2 e (p1 e w).2).2.
Proof.
  unfold all2. destruct (p1 e w) as [o1 w1]; simpl.
  destruct (p2 e w1) as [o2 w2]; simpl. by destruct o1, o2.
Qed.

Lemma bind_resolve_world {A} (p : Promise A) e w :
  ((await_ p in resolve tt) e w).2 = (p e w).2.
Proof. unfold bind. by destruct (p e w) as [[a|err] w']. Qed.

(** C1 (as the code has it).  A write-through operation awaits
    [Promise.all] of the cache promise and the store promise, so it
    resolves exactly when both settle well: [restoreGuildStorage] and
    [updateGuildSetting] always issue both round trips, and resolve iff
    the UPDATE succeeds and the hash write succeeds (the command is not
    failed and the key does not hold a string); [updateGuildSubscription] resolves iff the UPDATE succeeds,
    the cached list can be read, and, when there is one, it is an array
    and its rewrite succeeds.  A DurableStore failure always rejects the
    operation, and so does a FastCache failure. *)
Theorem write_through_resolves_iff_both_stores (snakeCase : string → string)
    (guildID settingName : string) (newSettingValue storageID subID : jsval)
    (e : Env) (w : World) :
  (round_trips w (restoreGuildStorage guildID storageID e w).2
   = [OnRedis RHSet (key_guild guildID); OnPg PgUpdate "guilds"]
   ∧ (is_resolved (restoreGuildStorage guildID storageID e w).1 = true
      ↔ fails e (OnPg PgUpdate "guilds") = false
        ∧ fails e (OnRedis RHSet (key_guild guildID)) = false
        ∧ holds_string (redis w) (key_guild guildID) = false))
  ∧ (snakeCase settingName ∈ guild_setting_names →
     round_trips w
       (updateGuildSetting snakeCase guildID settingName newSettingValue e w).2
     = [OnRedis RHSet (key_guild guildID); OnPg PgUpdate "guilds"]
     ∧ (is_resolved
          (updateGuildSetting snakeCase guildID settingName newSettingValue e w).1
        = true
        ↔ fails e (OnPg PgUpdate "guilds") = false
          ∧ fails e (OnRedis RHSet (key_guild guildID)) = false
          ∧ holds_string (redis w) (key_guild guildID) = false))
  ∧ (snakeCase settingName ∈ subscription_setting_names →
     (is_resolved
        (updateGuildSubscription snakeCase subID guildID settingName
           newSettingValue e w).1 = true
      ↔ fails e (OnPg PgUpdate "subscriptions") = false
        ∧ fails e (OnRedis RGet (key_subscriptions guildID)) = false
        ∧ ∃ cached, redis_get (key_subscriptions guildID) (redis w) = Some cached
            ∧ (truthy cached = false
               ∨ (is_array cached = true
                  ∧ fails e (OnRedis RSet (key_subscriptions guildID)) = false)))).
Proof.
  split; [|split].
  - unfold restoreGuildStorage. split.
    + apply round_trips_app.
      rewrite bind_resolve_world, all2_world, query_log, setHash_single_log.
      by rewrite <- app_assoc.
    + rewrite bind_resolve_resolved, all2_resolved.
      rewrite setHash_single_outcome, query_resolved, negb_true_iff. tauto.
  - intros Hin. apply includes_elem_of in Hin.
    unfold updateGuildSetting. rewrite Hin. cbn [negb]. split.
    + apply round_trips_app.
      rewrite bind_resolve_world, all2_world, query_log, setHash_single_log.
      by rewrite <- app_assoc.
    + rewrite bind_resolve_resolved, all2_resolved.
      rewrite setHash_single_outcome, query_resolved, negb_true_iff. tauto.
  - intros Hin. apply includes_elem_of in Hin.
    unfold updateGuildSubscription. rewrite Hin. cbn [negb].
    rewrite bind_resolve_resolved, all2_resolved.
    rewrite query_resolved, negb_true_iff.
    set (key := key_subscriptions guildID).
    assert (Hredis :
      ∀ (k : jsval → Promise unit),
        (∀ cached w1, redis w1 = redis w →
           is_resolved (k cached e w1).1 = true
           ↔ (truthy cached = false
              ∨ (is_array cached = true ∧ fails e (OnRedis RSet key) = false))) →
        is_resolved ((await c := RedisHandler.getString key in k c) e w).1 = true
        ↔ fails e (OnRedis RGet key) = false
          ∧ ∃ cached, redis_get key (redis w) = Some cached
              ∧ (truthy cached = false
                 ∨ (is_array cached = true ∧ fails e (OnRedis RSet key) = false))).
    { intros k Hk. unfold bind, RedisHandler.getString, command.
      destruct (fails e (OnRedis RGet key)); simpl.
      - split; [discriminate|]. intros [? _]; discriminate.
      - destruct (redis_get key (redis w)) as [d|]; simpl.
        + rewrite Hk by reflexivity. split.
          * intros H. split; [done|]. by exists d.
          * intros [_ (c & Hc & H)]. by simplify_eq.
        + split; [discriminate|]. intros [_ (c & Hc & _)]. discriminate. }
    rewrite Hredis.
    + tauto.
    + intros cached w1 Hw1. destruct (truthy cached) eqn:Ht.
      * destruct cached; simpl in Ht; try discriminate; simpl;
          try (split; [discriminate | intros [?|[? _]]; discriminate]).
        unfold bind, lift_option, resolve, RedisHandler.setString, command; simpl.
        destruct (fails e (OnRedis RSet key)); simpl.
        -- split; [discriminate | intros [?|[_ ?]]; discriminate].
        -- split; auto.
      * simpl. split; auto.
Qed.

Lemma write_through_resolves_iff_both_stores_witness :
  (snakeCase_ascii "prefix" ∈ guild_setting_names
   ∧ is_resolved
       (updateGuildSetting snakeCase_ascii "G1" "prefix" (JStr "!")
          cache_down world_G1).1 = false)
  ∧ (snakeCase_ascii "subLabel" ∈ subscription_setting_names
     ∧ is_resolved
         (updateGuildSubscription snakeCase_ascii (JNum 1) "G1" "subLabel" (JStr "Gold")
            healthy world_G1).1 = true).
Proof.
  assert (H1 : snakeCase_ascii "prefix" ∈ guild_setting_names)
    by (apply includes_elem_of; reflexivity).
  assert (H2 : snakeCase_ascii "subLabel" ∈ subscription_setting_names)
    by (apply includes_elem_of; reflexivity).
  split; split; try assumption.
  - destruct (write_through_resolves_iff_both_stores snakeCase_ascii "G1" "prefix"
                (JStr "!") (JStr "s") (JNum 1) cache_down world_G1) as (_ & H & _).
    apply not_true_is_false. intros Hres.
    apply (proj2 (H H1)) in Hres. destruct Hres as (_ & Hf & _). discriminate Hf.
  - destruct (write_through_resolves_iff_both_stores snakeCase_ascii "G1" "subLabel"
                (JStr "Gold") (JStr "s") (JNum 1) healthy world_G1) as (_ & _ & H).
    apply (H H2). split; [reflexivity|]. split; [reflexivity|].
    exists JNull. split; [reflexivity|]. left. reflexivity.
Defined.

(** C1 as stated fails: with the cache down and the relational store up,
    [restoreGuildStorage] issues the UPDATE, which succeeds and moves the
    pointer of G1, and yet the operation rejects with the cache error. *)
Lemma restoreGuildStorage_cache_failure_not_swallowed :
  let r := restoreGuildStorage "G1" (JStr "aaaaaaaaaaaa") cache_down world_G1 in
  fails cache_down (OnPg PgUpdate "guilds") = false
  ∧ storage_pointers (pg world_G1) "G1" = [JStr "777777777777"]
  ∧ storage_pointers (pg r.2) "G1" = [JStr "aaaaaaaaaaaa"]
  ∧ r.1 = Rejected RedisError.
Proof. vm_compute. auto. Qed.

(* ===================================================================== *)
(** ** Sorting by a key, descending *)
(* ===================================================================== *)

Section SortDesc.
Context {A : Type} (key : A → Z).

Lemma sort_insert_elem x y l : y ∈ sort_insert (fun a b : A => key b - key a) x l ↔ y = x ∨ y ∈ l.
Proof.
  induction l as [|z l IH]; simpl.
  - rewrite list_elem_of_singleton. rewrite elem_of_nil. tauto.
  - destruct (key z - key x <=? 0).
    + by rewrite elem_of_cons.
    + rewrite !elem_of_cons, IH. tauto.
Qed.

Lemma js_sort_elem y l : y ∈ js_sort (fun a b : A => key b - key a) l ↔ y ∈ l.
Proof.
  induction l as [|x l IH]; simpl; [done|].
  rewrite sort_insert_elem, elem_of_cons, IH. tauto.
Qed.

Lemma js_sort_nil l : js_sort (fun a b : A => key b - key a) l = [] ↔ l = [].
Proof.
  split; [|by intros ->].
  destruct l as [|x l]; [done|]. simpl.
  destruct (js_sort (fun a b : A => key b - key a) l) as [|z s]; simpl; [done|].
  by destruct (key z - key x <=? 0).
Qed.

Lemma sort_insert_sorted x l :
  StronglySorted (fun a b => key b ≤ key a) l →
  StronglySorted (fun a b => key b ≤ key a) (sort_insert (fun a b : A => key b - key a) x l).
Proof.
  induction 1 as [|z l Hs IH Hz]; simpl.
  - repeat constructor.
  - destruct (key z - key x <=? 0) eqn:Hc.
    + apply Z.leb_le in Hc. constructor; [by constructor|].
      constructor; [lia|]. rewrite Forall_forall in Hz |- *.
      intros y Hy. specialize (Hz y Hy). lia.
    + apply Z.leb_gt in Hc. constructor; [done|].
      apply Forall_forall. intros y Hy.
      apply list_elem_of_In, sort_insert_elem in Hy.
      destruct Hy as [->|Hy]; [lia|].
      rewrite Forall_forall in Hz. by apply Hz, list_elem_of_In.
Qed.

Lemma js_sort_sorted l : StronglySorted (fun a b => key b ≤ key a) (js_sort (fun a b : A => key b - key a) l).
Proof.
  induction l as [|x l IH]; simpl; [constructor|by apply sort_insert_sorted].
Qed.

(** The first element after sorting carries the greatest key. *)
Lemma head_js_sort_max l x :
  head (js_sort (fun a b : A => key b - key a) l) = Some x → x ∈ l ∧ ∀ y, y ∈ l → key y ≤ key x.
Proof.
  intros Hhead.
  assert (Hin : x ∈ js_sort (fun a b : A => key b - key a) l).
  { destruct (js_sort (fun a b : A => key b - key a) l); simplify_eq/=. by left. }
  split; [by apply js_sort_elem|].
  intros y Hy. apply js_sort_elem in Hy.
  pose proof (js_sort_sorted l) as Hs.
  destruct (js_sort (fun a b : A => key b - key a) l) as [|z s]; simplify_eq/=.
  apply elem_of_cons in Hy as [->|Hy]; [lia|].
  inversion Hs as [|? ? _ Hall]; subst.
  rewrite Forall_forall in Hall. by apply Hall, list_elem_of_In.
Qed.
End SortDesc.


(* ===================================================================== *)
(** ** The previous epoch: counting and restoring *)
(* ===================================================================== *)

Lemma elem_of_List_filter {A} (f : A → bool) (l : list A) x :
  x ∈ List.filter f l ↔ x ∈ l ∧ f x = true.
Proof. rewrite !list_elem_of_In. apply filter_In. Qed.

Lemma List_filter_nil {A} (f : A → bool) (l : list A) :
  List.filter f l = [] ↔ ∀ x, x ∈ l → f x = false.
Proof.
  induction l as [|a l IH]; simpl.
  - split; [|done]. intros _ x Hx. by apply elem_of_nil in Hx.
  - destruct (f a) eqn:Hfa.
    + split; [discriminate|]. intros H. specialize (H a (list_elem_of_here _ _)).
      congruence.
    + rewrite IH. split.
      * intros H x Hx. apply elem_of_cons in Hx as [->|Hx]; auto.
      * intros H x Hx. apply H. by right.
Qed.

Lemma fetchGuildStorages_healthy guildID e w :
  fails e (OnPg PgSelect "guild_storages") = false →
  fetchGuildStorages guildID e w
  = (Resolved (List.map GuildStorage_of_row (epochs (pg w) guildID)),
     logged (OnPg PgSelect "guild_storages") w).
Proof.
  intros Hf. unfold fetchGuildStorages, bind, query, query_checked.
  rewrite Hf. simpl. unfold with_pg, logged. simpl. reflexivity.
Qed.

Lemma other_storages_map rows cur :
  other_storages (List.map GuildStorage_of_row rows) cur
  = List.map GuildStorage_of_row
      (List.filter (fun r => negb (strict_eq (js_col r "storage_id") (JStr cur))) rows).
Proof.
  unfold other_storages. induction rows as [|r rows IH]; simpl; [done|].
  destruct (strict_eq (js_col r "storage_id") (JStr cur)); simpl; by rewrite IH.
Qed.

Lemma num_of_js_col r c : num_of (js_col r c) = num_of (col r c).
Proof. unfold js_col, col. by destruct (r !! c). Qed.


Lemma epochs_elem db guildID r :
  r ∈ epochs db guildID
  ↔ r ∈ table db "guild_storages" ∧ col r "guild_id" = JStr guildID.
Proof.
  unfold epochs, sql_select. rewrite elem_of_List_filter.
  unfold where_eq. simpl. by rewrite sql_eq_JStr.
Qed.

(** What the selection of the previous epoch returns: [undefined] when
    the guild has no epoch other than the current one, otherwise the
    storage id of such an epoch that no other one is more recent than. *)
Lemma latest_other_storage_spec db guildID cur :
  storage_ids_are_names db →
  let chosen := latest_other_storage
                  (List.map GuildStorage_of_row (epochs db guildID)) cur in
  ((∀ r, r ∈ epochs db guildID → col r "storage_id" = JStr cur)
   ∧ chosen = JUndefined)
  ∨ (∃ r s, other_epoch db guildID cur r
            ∧ (∀ r', other_epoch db guildID cur r' → created_at r' ≤ created_at r)
            ∧ col r "storage_id" = JStr s ∧ s ≠ "" ∧ chosen = JStr s).
Proof.
  intros Hwf. unfold latest_other_storage. rewrite other_storages_map.
  set (others := List.filter _ (epochs db guildID)).
  assert (Hothers : ∀ r, r ∈ others ↔ other_epoch db guildID cur r).
  { intros r. unfold others, other_epoch. rewrite elem_of_List_filter.
    split; intros [Hin Hne]; (split; [done|]).
    - destruct (proj1 (epochs_elem _ _ _) Hin) as [Ht _].
      destruct (Hwf r Ht) as (s & Hs & _).
      unfold js_col, col in *. rewrite Hs in *. simpl in *.
      intros Heq. simplify_eq. by rewrite String.eqb_refl in Hne.
    - destruct (proj1 (epochs_elem _ _ _) Hin) as [Ht _].
      destruct (Hwf r Ht) as (s & Hs & _).
      unfold js_col, col in *. rewrite Hs in *. simpl in *.
      apply negb_true_iff, String.eqb_neq. congruence. }
  destruct (head (js_sort by_createdAt_desc (List.map GuildStorage_of_row others)))
    as [x|] eqn:Hhead.
  - right.
    apply (head_js_sort_max (fun o => num_of (js_get o "createdAt"))) in Hhead.
    destruct Hhead as [Hx Hmax].
    apply list_elem_of_fmap in Hx as (r & -> & Hr).
    pose proof (proj1 (Hothers r) Hr) as Hoth.
    destruct Hoth as [Hin Hne].
    destruct (proj1 (epochs_elem _ _ _) Hin) as [Ht _].
    destruct (Hwf r Ht) as (s & Hs & Hs').
    exists r, s. split; [by split|]. split.
    + intros r' Hr'. apply Hothers in Hr'.
      specialize (Hmax (GuildStorage_of_row r')).
      unfold GuildStorage_of_row in Hmax. simpl in Hmax.
      rewrite !num_of_js_col in Hmax. apply Hmax.
      apply list_elem_of_fmap. by exists r'.
    + simpl. unfold js_col, col. rewrite Hs. simpl. auto.
  - left. destruct (js_sort by_createdAt_desc _) as [|? ?] eqn:Hs; [|done].
    apply (proj1 (js_sort_nil (fun o => num_of (js_get o "createdAt")) _)) in Hs.
    apply fmap_nil_inv in Hs.
    split; [|done]. intros r Hr.
    destruct (proj1 (epochs_elem _ _ _) Hr) as [Ht _].
    destruct (Hwf r Ht) as (s & Hrs & _).
    destruct (decide (s = cur)) as [->|Hne].
    + unfold col. by rewrite Hrs.
    + exfalso. assert (Hin : r ∈ others).
      { apply Hothers. split; [done|]. unfold col. rewrite Hrs. simpl. congruence. }
      rewrite Hs in Hin. by apply elem_of_nil in Hin.
Qed.





Example countGuildInvites_sums_first_epoch :
  (countGuildInvites "G1" "333333333333" healthy world_G1_members).1
  = Resolved (JObj [("regular", JNum 8); ("leaves", JNum 1);
                    ("bonus", JNum 2); ("fake", JNum 1)]).
Proof. vm_compute. reflexivity. Qed.

Example countGuildInvites_no_previous_epoch :
  (countGuildInvites "G1" "777777777777" healthy world_G1).1 = Resolved JNull.
Proof. vm_compute. reflexivity. Qed.

Example countGuildInvites_empty_previous_epoch :
  (countGuildInvites "G1" "777777777777" healthy world_G1_reset).1
  = Resolved (JObj [("regular", JNum 0); ("leaves", JNum 0);
                    ("bonus", JNum 0); ("fake", JNum 0)]).
Proof. vm_compute. reflexivity. Qed.

(** The pointers of a guild after the UPDATE of [restoreGuildStorage]. *)
Lemma storage_pointers_after_update guildID v db :
  storage_pointers (update_guild_storage_id guildID v db).2 guildID
  = List.map (fun _ => pg_param v) (guild_rows db guildID).
Proof.
  unfold storage_pointers, guild_rows, update_guild_storage_id, sql_select. simpl.
  rewrite table_sql_update_eq.
  induction (table db "guilds") as [|r l IH]; simpl; [done|].
  destruct (where_eq "guild_id" (JStr guildID) r) eqn:Hc; simpl.
  - rewrite where_eq_insert_ne, Hc by done. simpl. rewrite IH. f_equal.
    unfold col. by rewrite lookup_insert_eq.
  - rewrite Hc. apply IH.
Qed.

Lemma restoreGuildStorage_pointers guildID v e w :
  fails e (OnPg PgUpdate "guilds") = false →
  storage_pointers (pg (restoreGuildStorage guildID v e w).2) guildID
  = List.map (fun _ => pg_param v) (guild_rows (pg w) guildID).
Proof.
  intros Hf. unfold restoreGuildStorage, bind, all2.
  pose proof (setHash_pg (key_guild guildID) [("storageID", v)] e w) as Hpg.
  destruct (RedisHandler.setHash _ _ e w) as [o1 w1]. simpl in Hpg.
  unfold query, query_checked. rewrite Hf.
  pose proof (storage_pointers_after_update guildID v (pg w1)) as Hp.
  destruct (update_guild_storage_id guildID v (pg w1)) as [rows db'].
  simpl in Hp. rewrite Hpg in Hp.
  destruct o1; simpl; exact Hp.
Qed.

(** The part of C3 the code keeps: when the guild has another epoch,
    [restoreGuildInvites] points the guild at an epoch other than the
    current one such that no other one is more recently created. *)
Lemma restoreGuildInvites_latest_other (guildID currentStorageID : string)
    (e : Env) (w : World) :
  storage_ids_are_names (pg w) →
  fails e (OnPg PgSelect "guild_storages") = false →
  fails e (OnPg PgUpdate "guilds") = false →
  (∃ r, other_epoch (pg w) guildID currentStorageID r) →
  ∃ r, other_epoch (pg w) guildID currentStorageID r
       ∧ (∀ r', other_epoch (pg w) guildID currentStorageID r' →
                created_at r' ≤ created_at r)
       ∧ storage_pointers (pg (restoreGuildInvites guildID currentStorageID e w).2)
           guildID
         = List.map (fun _ => col r "storage_id") (guild_rows (pg w) guildID).
Proof.
  intros Hwf Hf1 Hf2 (r0 & Hr0).
  unfold restoreGuildInvites, bind. rewrite fetchGuildStorages_healthy by done.
  cbn zeta.
  destruct (latest_other_storage_spec (pg w) guildID currentStorageID Hwf)
    as [[Hall _]|(r & s & Hoth & Hmax & Hcol & Hs & Hch)].
  - destruct Hr0 as [Hin Hne]. by specialize (Hall r0 Hin).
  - cbn zeta in Hch. rewrite Hch. exists r. split; [done|]. split; [done|].
    rewrite restoreGuildStorage_pointers by done. by rewrite Hcol.
Qed.

(** The part of C3 the code misses: when the guild has no other epoch,
    the selection yields [undefined] and the restore runs all the same,
    putting NULL in the pointer of every settings row of the guild. *)
Lemma restoreGuildInvites_nothing_to_restore (guildID currentStorageID : string)
    (e : Env) (w : World) :
  storage_ids_are_names (pg w) →
  fails e (OnPg PgSelect "guild_storages") = false →
  fails e (OnPg PgUpdate "guilds") = false →
  (¬ ∃ r, other_epoch (pg w) guildID currentStorageID r) →
  storage_pointers (pg (restoreGuildInvites guildID currentStorageID e w).2) guildID
  = List.map (fun _ => JNull) (guild_rows (pg w) guildID).
Proof.
  intros Hwf Hf1 Hf2 Hnone.
  unfold restoreGuildInvites, bind. rewrite fetchGuildStorages_healthy by done.
  cbn zeta.
  destruct (latest_other_storage_spec (pg w) guildID currentStorageID Hwf)
    as [[_ Hch]|(r & s & Hoth & _)].
  - cbn zeta in Hch. rewrite Hch.
    by rewrite restoreGuildStorage_pointers.
  - exfalso. apply Hnone. by exists r.
Qed.

(** C3 at the input where it fails.  G1 has a single epoch, the current
    one, so there is nothing to restore; [restoreGuildInvites] nevertheless
    resolves after overwriting the pointer, which was [777777777777], with
    NULL, and the cached [storageID] with the empty string. *)
Theorem restoreGuildInvites_single_epoch_clears_pointer :
  let r := restoreGuildInvites "G1" "777777777777" healthy world_G1 in
  List.map (fun row => col row "storage_id") (epochs (pg world_G1) "G1")
  = [JStr "777777777777"]
  ∧ storage_pointers (pg world_G1) "G1" = [JStr "777777777777"]
  ∧ r.1 = Resolved tt
  ∧ storage_pointers (pg r.2) "G1" = [JNull]
  ∧ cached_field (redis r.2) (key_guild "G1") "storageID" = Some "".
Proof. vm_compute. auto. Qed.

(** The same operation on G1 after a reset restores the first epoch. *)
Example restoreGuildInvites_after_reset :
  let r := restoreGuildInvites "G1" "333333333333" healthy world_G1_reset in
  storage_pointers (pg world_G1_reset) "G1" = [JStr "333333333333"]
  ∧ r.1 = Resolved tt
  ∧ storage_pointers (pg r.2) "G1" = [JStr "777777777777"].
Proof. vm_compute. auto. Qed.

(* ===================================================================== *)
(** ** Lazy provisioning of guild settings *)
(* ===================================================================== *)

Lemma getHashFields_absent key e w :
  fails e (OnRedis RHGetAll key) = false →
  redis w !! key = None →
  RedisHandler.getHashFields key e w = (Resolved ∅, logged (OnRedis RHGetAll key) w).
Proof.
  intros Hf Hk. unfold RedisHandler.getHashFields, command, redis_hgetall.
  rewrite Hf, Hk. simpl. by destruct w.
Qed.

Lemma fetchGuildSettings_first_fetch (guildID : string) (e : Env) (w : World) :
  all_healthy e →
  guild_rows (pg w) guildID = [] →
  redis w !! key_guild guildID = None →
  let sid := storage_id_at e (rng_pos w) in
  ∃ w',
    fetchGuildSettings guildID e w
    = (Resolved (JObj [("guildID", JUndefined); ("storageID", JStr sid);
                       ("language", JUndefined); ("prefix", JUndefined);
                       ("cmdChannel", JUndefined); ("fakeThreshold", JUndefined)]),
       w')
    ∧ pg w' = (insert_guild_storage guildID (JStr sid) (now e)
                 (insert_default_guild guildID sid (pg w)).2).2
    ∧ cached_field (redis w') (key_guild guildID) "guildID" = Some "".
Proof.
  intros Hok Hrows Hkey sid. unfold fetchGuildSettings.
  unfold bind at 1. rewrite getHashFields_absent by auto.
  change (truthy (hash_field ∅ "guildID")) with false. cbv iota.
  unfold bind at 1. unfold query at 1, query_checked. rewrite Hok.
  cbn [pg logged fst snd]. fold (guild_rows (pg w) guildID). rewrite Hrows.
  cbn [with_pg pg redis log rng_pos].
  unfold bind, generateStorageID, query, query_checked, get_now, first_row,
    lift_option, resolve, detach.
  cbn [pg redis log rng_pos logged with_pg fst snd]. rewrite !Hok.
  fold (storage_id_at e (rng_pos w)). fold sid.
  cbn -[RedisHandler.setHash sid sql_insert].
  pose proof (setHash_pg (key_guild guildID)
    [("guildID", JUndefined); ("storageID", JStr sid);
     ("language", JUndefined); ("prefix", JUndefined);
     ("cmdChannel", JUndefined); ("fakeThreshold", JUndefined)] e) as Hpg.
  assert (Hne : ∀ c, c ≠ "guild_storage_id" →
            js_col ({["guild_storage_id" := JStr sid]} : gmap string jsval) c = JUndefined).
  { intros c Hc. unfold js_col. by rewrite lookup_singleton_ne. }
  assert (Heq : js_col ({["guild_storage_id" := JStr sid]} : gmap string jsval)
                  "guild_storage_id" = JStr sid).
  { unfold js_col. by rewrite lookup_singleton_eq. }
  rewrite Heq, !Hne by done. cbn [pg_param].
  match goal with
  | |- context [RedisHandler.setHash ?k ?d e ?w0] =>
      specialize (Hpg w0); destruct (RedisHandler.setHash k d e w0) as [o w'] eqn:Hset
  end.
  exists w'. split; [reflexivity|]. simpl in Hpg. rewrite Hpg.
  split; [reflexivity|].
  unfold RedisHandler.setHash, command in Hset.
  cbn [List.length Nat.ltb Nat.leb] in Hset. rewrite Hok in Hset.
  unfold redis_hset in Hset. cbn [redis logged with_pg] in Hset.
  rewrite Hkey in Hset. cbn [mbind option_bind] in Hset.
  injection Hset as _ <-. unfold cached_field, with_redis. cbn [redis].
  rewrite lookup_insert_eq. unfold hash_put. cbn [List.map foldl fst snd to_arg].
  by simplify_map_eq.
Qed.

(** What the first fetch does in the relational store, and what it
    returns: the settings row with the defaults and one epoch row are
    appended, but the object handed back is built from the RETURNING row
    of the INSERT, which carries [guild_storage_id] only. *)
Lemma fetchGuildSettings_provisions (guildID : string) (e : Env) (w : World) :
  all_healthy e →
  guild_rows (pg w) guildID = [] →
  redis w !! key_guild guildID = None →
  let r := fetchGuildSettings guildID e w in
  let sid := storage_id_at e (rng_pos w) in
  table (pg r.2) "guilds" = table (pg w) "guilds" ++ [default_guild_row guildID sid]
  ∧ table (pg r.2) "guild_storages"
    = table (pg w) "guild_storages" ++ [epoch_row guildID sid (now e)]
  ∧ (∀ t, t ≠ "guilds" → t ≠ "guild_storages" → table (pg r.2) t = table (pg w) t)
  ∧ r.1 = Resolved (JObj [("guildID", JUndefined); ("storageID", JStr sid);
                          ("language", JUndefined); ("prefix", JUndefined);
                          ("cmdChannel", JUndefined); ("fakeThreshold", JUndefined)]).
Proof.
  intros Hok Hrows Hkey r sid.
  destruct (fetchGuildSettings_first_fetch guildID e w Hok Hrows Hkey)
    as (w' & Heq & Hpg & _).
  subst r. rewrite Heq. cbn [fst snd]. rewrite Hpg.
  unfold insert_guild_storage, insert_default_guild. cbn [fst snd pg_param].
  repeat split.
  - by rewrite table_sql_insert_ne, table_sql_insert_eq.
  - by rewrite table_sql_insert_eq, table_sql_insert_ne.
  - intros t H1 H2. by rewrite !table_sql_insert_ne.
Qed.

(** C2 at the input where it fails.  On empty stores the first
    [fetchGuildSettings] of G1 writes the settings row with the defaults
    and exactly one epoch row, yet what it returns has only [storageID]
    set: [guildID], [language], [prefix], [cmdChannel] and [fakeThreshold]
    are [undefined].  The second fetch returns the defaults with the same
    storage id and writes nothing to the relational store. *)
Theorem fetchGuildSettings_first_fetch_returns_no_defaults :
  let first := fetchGuildSettings "G1" healthy empty_world in
  let second := fetchGuildSettings "G1" healthy first.2 in
  table (pg first.2) "guilds" = [default_guild_row "G1" "777777777777"]
  ∧ table (pg first.2) "guild_storages" = [epoch_row "G1" "777777777777" 1000]
  ∧ first.1 = Resolved (JObj [("guildID", JUndefined);
                              ("storageID", JStr "777777777777");
                              ("language", JUndefined); ("prefix", JUndefined);
                              ("cmdChannel", JUndefined);
                              ("fakeThreshold", JUndefined)])
  ∧ first.1 ≠ Resolved (default_settings "G1" "777777777777")
  ∧ second.1 = Resolved (default_settings "G1" "777777777777")
  ∧ pg second.2 = pg first.2.
Proof.
  vm_compute. repeat split; try reflexivity. discriminate.
Qed.

(* ===================================================================== *)
(** ** Leaderboard *)
(* ===================================================================== *)




Lemma healthy_all_healthy : all_healthy healthy.
Proof. intros op. reflexivity. Qed.


Example fetchGuildLeaderboard_ranks_members :
  List.map entry_invites
    match (fetchGuildLeaderboard "G1" "777777777777" JUndefined healthy
             world_G1_members).1 with
    | Resolved (JArr entries) => entries
    | _ => []
    end
  = [6; 2].
Proof. vm_compute. reflexivity. Qed.


(* ===================================================================== *)
(** ** Collection mutations on a cold cache *)
(* ===================================================================== *)

Lemma getString_absent key e w :
  redis w !! key = None →
  RedisHandler.getString key e w
  = (if fails e (OnRedis RGet key) then Rejected RedisError else Resolved JNull,
     logged (OnRedis RGet key) w).
Proof.
  intros Hk. unfold RedisHandler.getString, command, redis_get. rewrite Hk.
  destruct (fails e _); simpl; [done|]. by destruct w.
Qed.

Lemma query_world {A} k t (run : Postgres → A * Postgres) e w :
  fails e (OnPg k t) = false →
  pg (query k t run e w).2 = (run (pg w)).2
  ∧ redis (query k t run e w).2 = redis w.
Proof.
  intros Hf. unfold query, query_checked. rewrite Hf.
  by destruct (run (pg w)).
Qed.














Lemma all2_rejected_left {A B} (p1 : Promise A) (p2 : Promise B) e w err :
  (p1 e w).1 = Rejected err → (all2 p1 p2 e w).1 = Rejected err.
Proof.
  unfold all2. destruct (p1 e w) as [o1 w1]; simpl. intros ->.
  by destruct (p2 e w1) as [o2 w2].
Qed.

Lemma bind_rejected {A B} (p : Promise A) (k : A → Promise B) e w err :
  (p e w).1 = Rejected err → (bind p k e w).1 = Rejected err.
Proof. unfold bind. destruct (p e w) as [o1 w1]; simpl. by intros ->. Qed.

(** On a cold cache [updateGuildPlugin] and [createGuildSubscription]
    skip the cache write by failing on the spread of [null]: the
    relational write is applied, the operation rejects. *)
Lemma updateGuildPlugin_cold_rejects guildID pluginName newPluginData e w :
  all_healthy e →
  redis w !! key_plugins guildID = None →
  (updateGuildPlugin guildID pluginName newPluginData e w).1 = Rejected TypeError.
Proof.
  intros Hok Hk. unfold updateGuildPlugin.
  apply bind_rejected, all2_rejected_left.
  unfold bind at 1. rewrite getString_absent by done. rewrite Hok.
  reflexivity.
Qed.

Lemma createGuildSubscription_cold_rejects guildID expiresAt createdAt subLabel
    guildsCount patreonUserID e w :
  all_healthy e →
  redis w !! key_subscriptions guildID = None →
  (createGuildSubscription guildID expiresAt createdAt subLabel guildsCount
     patreonUserID e w).1 = Rejected TypeError.
Proof.
  intros Hok Hk. unfold createGuildSubscription.
  unfold bind at 1. unfold get_now.
  unfold bind at 1. unfold query at 1, query_checked. rewrite Hok.
  unfold insert_subscription. cbn [fst snd pg logged with_pg].
  unfold bind at 1. unfold first_row, lift_option.
  cbn [head fmap option_fmap option_map resolve].
  unfold bind at 1. unfold query at 1, query_checked. rewrite Hok.
  cbn [fst snd pg logged with_pg].
  unfold bind at 1. rewrite getString_absent by done. rewrite Hok.
  reflexivity.
Qed.



(* ===================================================================== *)
(** ** Alert mutations and the alert cache *)
(* ===================================================================== *)

Lemma getString_cached key d t e w :
  fails e (OnRedis RGet key) = false →
  redis w !! key = Some {| content := RString d; ttl := t |} →
  RedisHandler.getString key e w = (Resolved d, logged (OnRedis RGet key) w).
Proof.
  intros Hf Hk. unfold RedisHandler.getString, command, redis_get.
  rewrite Hf, Hk. simpl. by destruct w.
Qed.

Lemma JSON_parse_stringify_array items :
  ∃ items', JSON_parse_stringify (JArr items) = JArr items'.
Proof. eexists. reflexivity. Qed.

(** A fetch of the alerts when the key is absent goes to the relational
    store; when the key holds a list it is answered by the cache alone. *)
Lemma fetchGuildAlerts_absent_round_trips guildID e w :
  all_healthy e →
  redis w !! key_alerts guildID = None →
  round_trips w (fetchGuildAlerts guildID e w).2
  = [OnRedis RGet (key_alerts guildID); OnPg PgSelect "guild_alerts";
     OnRedis RSet (key_alerts guildID)].
Proof.
  intros Hok Hk. apply round_trips_app.
  unfold fetchGuildAlerts. unfold bind at 1. rewrite getString_absent by done.
  rewrite Hok. cbn [truthy].
  unfold bind, query, query_checked, detach, RedisHandler.setString, command, resolve.
  cbn [pg redis log logged with_pg with_redis fst snd]. rewrite !Hok.
  cbn [pg redis log logged with_pg with_redis fst snd].
  by rewrite <- !app_assoc.
Qed.

Lemma fetchGuildAlerts_cached_round_trips guildID items t e w :
  all_healthy e →
  redis w !! key_alerts guildID = Some {| content := RString (JArr items); ttl := t |} →
  round_trips w (fetchGuildAlerts guildID e w).2 = [OnRedis RGet (key_alerts guildID)].
Proof.
  intros Hok Hk. apply round_trips_app.
  unfold fetchGuildAlerts. unfold bind at 1.
  rewrite (getString_cached _ (JArr items) t) by auto.
  reflexivity.
Qed.

Lemma updateGuildAlert_invalidates snakeCase guildID alertID settingName v e w :
  all_healthy e →
  snakeCase settingName ∈ alert_setting_names →
  redis (updateGuildAlert snakeCase guildID alertID settingName v e w).2
  = delete (key_alerts guildID) (redis w).
Proof.
  intros Hok Hin. unfold updateGuildAlert.
  apply includes_elem_of in Hin. rewrite Hin. cbn [negb].
  rewrite bind_resolve_world, all2_world.
  match goal with
  | |- context [query ?k ?t ?run e ?w1] =>
      destruct (query_world k t run e w1 (Hok _)) as [_ Hq2]; rewrite Hq2
  end.
  unfold RedisHandler.delete, command. rewrite Hok. reflexivity.
Qed.

Lemma addGuildAlert_patches guildID inviteCount channelID message type items t e w :
  all_healthy e →
  redis w !! key_alerts guildID = Some {| content := RString (JArr items); ttl := t |} →
  redis (addGuildAlert guildID inviteCount channelID message type e w).2
  = <[key_alerts guildID :=
        {| content := RString (JSON_parse_stringify
             (JArr (items ++ [new_alert (JNum (seq_value (pg w) "guild_alerts_id_seq"))
                                guildID inviteCount channelID message type])));
           ttl := None |}]> (redis w).
Proof.
  intros Hok Hk.
  destruct (addGuildAlert guildID inviteCount channelID message type e w)
    as [o w'] eqn:Hr.
  cbn [snd]. revert Hr. unfold addGuildAlert.
  unfold bind at 1. unfold query, query_checked. rewrite Hok.
  unfold insert_guild_alert. cbn [fst snd pg logged with_pg].
  unfold bind at 1. unfold first_row, lift_option.
  cbn [head fmap option_fmap option_map resolve].
  unfold bind at 1. rewrite (getString_cached _ (JArr items) t) by auto.
  cbn [truthy negb iterate lift_option]. unfold bind at 1. cbn [resolve].
  unfold RedisHandler.setString, command. rewrite Hok.
  assert (Hid : js_col ({[ "id" := JNum (seq_value (pg w) "guild_alerts_id_seq") ]}
                          : gmap string jsval) "id"
                = JNum (seq_value (pg w) "guild_alerts_id_seq")).
  { unfold js_col. by rewrite lookup_singleton_eq. }
  rewrite Hid. intros [= <- <-]. reflexivity.
Qed.

Lemma removeGuildAlert_patches guildID alertID items t e w :
  all_healthy e →
  redis w !! key_alerts guildID = Some {| content := RString (JArr items); ttl := t |} →
  redis (removeGuildAlert guildID alertID e w).2
  = <[key_alerts guildID :=
        {| content := RString (JSON_parse_stringify
             (JArr (List.filter
                      (fun alert => negb (strict_eq (js_get alert "id") alertID))
                      items)));
           ttl := None |}]> (redis w).
Proof.
  intros Hok Hk. unfold removeGuildAlert.
  rewrite bind_resolve_world, all2_world.
  match goal with
  | |- context [query ?k ?t ?run e ?w1] =>
      destruct (query_world k t run e w1 (Hok _)) as [_ Hq2]; rewrite Hq2
  end.
  unfold bind at 1. rewrite (getString_cached _ (JArr items) t) by auto.
  cbn [truthy negb array_of lift_option]. unfold bind at 1. cbn [resolve].
  unfold RedisHandler.setString, command. rewrite Hok. reflexivity.
Qed.

(** C8 (as the code has it).  [updateGuildAlert] deletes the guild's
    alert cache entry, so the next [fetchGuildAlerts] reads the relational
    store.  [addGuildAlert] and [removeGuildAlert] do not delete it: when
    the key holds a list they rewrite it in place, with the new alert
    appended or the removed id filtered out, and the next
    [fetchGuildAlerts] is answered by the cache alone. *)
Theorem alert_mutations_cache_effect (snakeCase : string → string)
    (guildID settingName : string)
    (alertID newSettingValue inviteCount channelID message type : jsval)
    (e : Env) (w : World) :
  all_healthy e →
  (snakeCase settingName ∈ alert_setting_names →
   let w' := (updateGuildAlert snakeCase guildID alertID settingName
                newSettingValue e w).2 in
   redis w' !! key_alerts guildID = None
   ∧ round_trips w' (fetchGuildAlerts guildID e w').2
     = [OnRedis RGet (key_alerts guildID); OnPg PgSelect "guild_alerts";
        OnRedis RSet (key_alerts guildID)])
  ∧ (∀ items t,
       redis w !! key_alerts guildID
       = Some {| content := RString (JArr items); ttl := t |} →
       (let w' := (addGuildAlert guildID inviteCount channelID message type e w).2 in
        cached_json (redis w') (key_alerts guildID)
        = Some (JSON_parse_stringify
                  (JArr (items ++ [new_alert
                                     (JNum (seq_value (pg w) "guild_alerts_id_seq"))
                                     guildID inviteCount channelID message type])))
        ∧ round_trips w' (fetchGuildAlerts guildID e w').2
          = [OnRedis RGet (key_alerts guildID)])
       ∧ (let w' := (removeGuildAlert guildID alertID e w).2 in
          cached_json (redis w') (key_alerts guildID)
          = Some (JSON_parse_stringify
                    (JArr (List.filter
                             (fun alert => negb (strict_eq (js_get alert "id") alertID))
                             items)))
          ∧ round_trips w' (fetchGuildAlerts guildID e w').2
            = [OnRedis RGet (key_alerts guildID)])).
Proof.
  intros Hok. split.
  - intros Hin. cbv zeta.
    assert (Hk : redis (updateGuildAlert snakeCase guildID alertID settingName
                          newSettingValue e w).2 !! key_alerts guildID = None).
    { rewrite updateGuildAlert_invalidates by done. apply lookup_delete_eq. }
    split; [done|]. by apply fetchGuildAlerts_absent_round_trips.
  - intros items t Hk. split; cbv zeta.
    + pose proof (addGuildAlert_patches guildID inviteCount channelID message type
                    items t e w Hok Hk) as Hp.
      destruct (JSON_parse_stringify_array
                  (items ++ [new_alert (JNum (seq_value (pg w) "guild_alerts_id_seq"))
                               guildID inviteCount channelID message type]))
        as (items' & Hitems).
      split.
      * unfold cached_json. rewrite Hp, lookup_insert_eq. reflexivity.
      * apply (fetchGuildAlerts_cached_round_trips guildID items' None); [done|].
        rewrite Hp, lookup_insert_eq. by rewrite Hitems.
    + pose proof (removeGuildAlert_patches guildID alertID items t e w Hok Hk) as Hp.
      destruct (JSON_parse_stringify_array
                  (List.filter
                     (fun alert => negb (strict_eq (js_get alert "id") alertID)) items))
        as (items' & Hitems).
      split.
      * unfold cached_json. rewrite Hp, lookup_insert_eq. reflexivity.
      * apply (fetchGuildAlerts_cached_round_trips guildID items' None); [done|].
        rewrite Hp, lookup_insert_eq. by rewrite Hitems.
Qed.

Lemma alert_mutations_cache_effect_witness :
  (let w' := (updateGuildAlert snakeCase_ascii "G1" (JNum 1) "message" (JStr "hello")
                healthy world_G1_alerts_cached).2 in
   redis w' !! key_alerts "G1" = None
   ∧ round_trips w' (fetchGuildAlerts "G1" healthy w').2
     = [OnRedis RGet (key_alerts "G1"); OnPg PgSelect "guild_alerts";
        OnRedis RSet (key_alerts "G1")])
  ∧ (let w' := (removeGuildAlert "G1" (JNum 1) healthy world_G1_alerts_cached).2 in
     cached_json (redis w') (key_alerts "G1") = Some (JArr [])
     ∧ round_trips w' (fetchGuildAlerts "G1" healthy w').2
       = [OnRedis RGet (key_alerts "G1")]).
Proof.
  destruct (alert_mutations_cache_effect snakeCase_ascii "G1" "message"
              (JNum 1) (JStr "hello") (JNum 10) (JStr "C1") (JStr "hi") (JStr "up")
              healthy world_G1_alerts_cached healthy_all_healthy) as [Hupd Hpatch].
  split.
  - apply Hupd. apply includes_elem_of. reflexivity.
  - exact (proj2 (Hpatch [] None eq_refl)).
Defined.

(** C8 as stated fails for [addGuildAlert]: with the (empty) alert list of
    G1 cached, adding an alert leaves the cache entry in place, now holding
    the new alert, and the next [fetchGuildAlerts] does not reach the
    relational store. *)
Lemma addGuildAlert_patches_cache_in_place :
  let w' := (addGuildAlert "G1" (JNum 10) (JStr "C1") (JStr "hi") (JStr "up")
               healthy world_G1_alerts_cached).2 in
  cached_json (redis world_G1_alerts_cached) (key_alerts "G1") = Some (JArr [])
  ∧ redis w' !! key_alerts "G1" ≠ None
  ∧ cached_json (redis w') (key_alerts "G1")
    = Some (JArr [new_alert (JNum 1) "G1" (JNum 10) (JStr "C1") (JStr "hi") (JStr "up")])
  ∧ round_trips w' (fetchGuildAlerts "G1" healthy w').2
    = [OnRedis RGet (key_alerts "G1")].
Proof.
  vm_compute. repeat split; try reflexivity. discriminate.
Qed.

(* ===================================================================== *)
(** ** Storage ids of the recorded epochs *)
(* ===================================================================== *)

Lemma digit36_char d : ∃ c, digit36 d = String c "".
Proof.
  unfold digit36. pose proof (fin_to_nat_lt d) as Hlt.
  generalize dependent (fin_to_nat d). intros n Hn.
  do 36 (destruct n as [|n]; [eexists; reflexivity|]). lia.
Qed.

(** [generateStorageID] yields twelve characters. *)
Lemma storage_id_at_length e pos : String.length (storage_id_at e pos) = 12%nat.
Proof.
  unfold storage_id_at. cbn [seq List.map].
  repeat match goal with
         | |- context [digit36 ?d] =>
             let c := fresh "c" in destruct (digit36_char d) as [c ->]
         end.
  reflexivity.
Qed.

Lemma storage_id_at_nonempty e pos : storage_id_at e pos ≠ "".
Proof.
  intros H. pose proof (storage_id_at_length e pos) as Hlen.
  rewrite H in Hlen. discriminate.
Qed.

Lemma storage_ids_are_names_same db db' :
  table db' "guild_storages" = table db "guild_storages" →
  storage_ids_are_names db → storage_ids_are_names db'.
Proof. intros Heq Hwf r Hr. rewrite Heq in Hr. by apply Hwf. Qed.

Lemma storage_ids_are_names_append db db' guildID s createdAt :
  table db' "guild_storages" = table db "guild_storages" ++ [epoch_row guildID s createdAt] →
  s ≠ "" →
  storage_ids_are_names db → storage_ids_are_names db'.
Proof.
  intros Heq Hs Hwf r Hr. rewrite Heq in Hr.
  apply elem_of_app in Hr as [Hr|Hr]; [by apply Hwf|].
  apply list_elem_of_singleton in Hr as ->. exists s. split; [|done].
  unfold epoch_row. by simplify_map_eq.
Qed.

(** The rows the pointer UPDATE returns all carry the new pointer. *)
Lemma update_guild_storage_id_returns guildID v db r :
  r ∈ (update_guild_storage_id guildID v db).1 →
  js_col r "guild_storage_id" = pg_param v.
Proof.
  unfold update_guild_storage_id, sql_select. cbn [fst].
  rewrite table_sql_update_eq. intros Hr.
  apply list_elem_of_fmap in Hr as (r' & -> & Hr').
  apply elem_of_List_filter in Hr' as [Hr' Hc].
  apply list_elem_of_fmap in Hr' as (r0 & -> & _).
  unfold js_col. rewrite lookup_singleton_eq. cbn [default].
  destruct (where_eq "guild_id" (JStr guildID) r0) eqn:Hc0.
  - unfold col. by rewrite lookup_insert_eq.
  - by rewrite Hc0 in Hc.
Qed.

Lemma update_guild_storage_id_epochs guildID v db :
  table (update_guild_storage_id guildID v db).2 "guild_storages"
  = table db "guild_storages".
Proof. unfold update_guild_storage_id. cbn [snd]. by rewrite table_sql_update_ne. Qed.

(** An invite reset records at most one epoch, under the id it generated. *)
Lemma removeGuildInvites_epochs guildID e w :
  let w' := (removeGuildInvites guildID e w).2 in
  table (pg w') "guild_storages" = table (pg w) "guild_storages"
  ∨ table (pg w') "guild_storages"
    = table (pg w) "guild_storages"
      ++ [epoch_row guildID (storage_id_at e (rng_pos w)) (now e)].
Proof.
  cbv zeta. destruct (removeGuildInvites guildID e w) as [o w'] eqn:Hr.
  cbn [snd]. revert Hr. unfold removeGuildInvites.
  unfold bind at 1. unfold generateStorageID. fold (storage_id_at e (rng_pos w)).
  set (sid := storage_id_at e (rng_pos w)).
  unfold bind at 1. unfold query at 1, query_checked. cbn [pg logged].
  destruct (fails e (OnPg PgUpdate "guilds")); [intros [= <- <-]; by left|].
  pose proof (update_guild_storage_id_returns guildID (JStr sid) (pg w)) as Hret.
  pose proof (update_guild_storage_id_epochs guildID (JStr sid) (pg w)) as Hep.
  destruct (update_guild_storage_id guildID (JStr sid) (pg w)) as [rows db'].
  cbn [fst snd] in Hret, Hep.
  unfold bind at 1. unfold first_row, lift_option.
  destruct rows as [|r0 rows]; cbn [head fmap option_fmap option_map reject resolve].
  { intros [= <- <-]. cbn [pg with_pg]. by left. }
  rewrite (Hret r0) by apply list_elem_of_here. cbn [pg_param].
  unfold bind at 1.
  match goal with
  | |- context [RedisHandler.setHash ?k ?d e ?w0] =>
      pose proof (setHash_pg k d e w0) as Hpg;
      destruct (RedisHandler.setHash k d e w0) as [o1 w1]
  end.
  cbn [snd pg with_pg] in Hpg.
  destruct o1 as [[]|err]; [|intros [= <- <-]; left; by rewrite Hpg].
  unfold bind, get_now, query, query_checked, insert_guild_storage, resolve.
  destruct (fails e (OnPg PgInsert "guild_storages")).
  - intros [= <- <-]. cbn [pg logged]. left. by rewrite Hpg.
  - intros [= <- <-]. cbn [pg logged with_pg pg_param]. right.
    by rewrite table_sql_insert_eq, Hpg, Hep.
Qed.

(** So does a settings fetch. *)
Lemma fetchGuildSettings_epochs guildID e w :
  let w' := (fetchGuildSettings guildID e w).2 in
  table (pg w') "guild_storages" = table (pg w) "guild_storages"
  ∨ table (pg w') "guild_storages"
    = table (pg w) "guild_storages"
      ++ [epoch_row guildID (storage_id_at e (rng_pos w)) (now e)].
Proof.
  cbv zeta. destruct (fetchGuildSettings guildID e w) as [o w'] eqn:Hr.
  cbn [snd]. revert Hr. unfold fetchGuildSettings.
  unfold bind at 1. unfold RedisHandler.getHashFields, command.
  destruct (fails e (OnRedis RHGetAll (key_guild guildID)));
    [intros [= <- <-]; by left|].
  destruct (redis_hgetall (key_guild guildID) (redis w)) as [h|];
    cbn [mbind option_bind]; [|intros [= <- <-]; by left].
  destruct (truthy (hash_field h "guildID")); [intros [= <- <-]; by left|].
  unfold bind at 1. unfold query at 1, query_checked.
  cbn [pg logged with_redis].
  destruct (fails e (OnPg PgSelect "guilds")); [intros [= <- <-]; by left|].
  unfold bind at 1.
  destruct (sql_select "guilds" (where_eq "guild_id" (JStr guildID)) (pg w))
    as [|row rows].
  - unfold bind at 1. unfold generateStorageID.
    cbn [rng_pos pg redis log with_pg with_redis logged].
    fold (storage_id_at e (rng_pos w)). set (sid := storage_id_at e (rng_pos w)).
    unfold bind at 1. unfold query at 1, query_checked. cbn [pg logged with_pg].
    destruct (fails e (OnPg PgInsert "guilds")); [intros [= <- <-]; by left|].
    unfold insert_default_guild.
    unfold bind at 1. unfold first_row, lift_option.
    cbn [head fmap option_fmap option_map resolve].
    assert (Heq : js_col ({["guild_storage_id" := JStr sid]} : gmap string jsval)
                    "guild_storage_id" = JStr sid).
    { unfold js_col. by rewrite lookup_singleton_eq. }
    rewrite Heq.
    unfold bind at 1. unfold get_now.
    unfold bind at 1. unfold query at 1, query_checked, insert_guild_storage.
    cbn [pg logged with_pg pg_param].
    destruct (fails e (OnPg PgInsert "guild_storages")).
    + intros [= <- <-]. cbn [pg logged with_pg]. left.
      by rewrite table_sql_insert_ne.
    + unfold resolve at 1. cbn [head lift_option].
      unfold bind, resolve, detach.
      match goal with
      | |- context [RedisHandler.setHash ?k ?d e ?w0] =>
          pose proof (setHash_pg k d e w0) as Hpg;
          destruct (RedisHandler.setHash k d e w0) as [o1 w1]
      end.
      cbn [snd pg with_pg] in Hpg. intros [= <- <-]. right.
      rewrite Hpg, table_sql_insert_eq. by rewrite table_sql_insert_ne.
  - unfold resolve at 1. cbn [head lift_option].
    unfold bind, resolve, detach.
    match goal with
    | |- context [RedisHandler.setHash ?k ?d e ?w0] =>
        pose proof (setHash_pg k d e w0) as Hpg;
        destruct (RedisHandler.setHash k d e w0) as [o1 w1]
    end.
    cbn [snd pg with_pg logged] in Hpg. intros [= <- <-]. left. by rewrite Hpg.
Qed.

(** The two operations that record epochs keep every stored storage id a
    non-empty string, whatever the environment does. *)
Lemma epoch_writers_keep_storage_ids guildID e w :
  storage_ids_are_names (pg w) →
  storage_ids_are_names (pg (removeGuildInvites guildID e w).2)
  ∧ storage_ids_are_names (pg (fetchGuildSettings guildID e w).2).
Proof.
  intros Hwf. split.
  - destruct (removeGuildInvites_epochs guildID e w) as [H|H].
    + by eapply storage_ids_are_names_same.
    + eapply storage_ids_are_names_append; [exact H| |done].
      apply storage_id_at_nonempty.
  - destruct (fetchGuildSettings_epochs guildID e w) as [H|H].
    + by eapply storage_ids_are_names_same.
    + eapply storage_ids_are_names_append; [exact H| |done].
      apply storage_id_at_nonempty.
Qed.

(* ===================================================================== *)
(** ** Fetching the settings again *)
(* ===================================================================== *)

Lemma default_guild_row_matches guildID sid :
  where_eq "guild_id" (JStr guildID) (default_guild_row guildID sid) = true.
Proof.
  unfold where_eq, col, default_guild_row. simplify_map_eq. cbn.
  apply String.eqb_refl.
Qed.

(** A fetch that finds the guild's hash without a usable [guildID] field
    and the settings row with the defaults in the relational store returns
    the defaults and writes nothing to the relational store. *)
Lemma fetchGuildSettings_from_row (guildID sid : string) (e : Env) (w : World) :
  all_healthy e →
  cached_field (redis w) (key_guild guildID) "guildID" = Some "" →
  guild_rows (pg w) guildID = [default_guild_row guildID sid] →
  (fetchGuildSettings guildID e w).1 = Resolved (default_settings guildID sid)
  ∧ pg (fetchGuildSettings guildID e w).2 = pg w.
Proof.
  intros Hok Hcache Hrows.
  destruct (fetchGuildSettings guildID e w) as [o w'] eqn:Hr.
  cbn [fst snd]. revert Hr. unfold fetchGuildSettings.
  unfold bind at 1. unfold RedisHandler.getHashFields, command.
  rewrite (Hok (OnRedis RHGetAll (key_guild guildID))).
  unfold cached_field in Hcache. unfold redis_hgetall.
  destruct (redis w !! key_guild guildID) as [[[d|h] t]|]; try discriminate.
  cbn [mbind option_bind]. unfold hash_field. rewrite Hcache.
  cbn [fmap option_fmap option_map default].
  change (truthy (id (JStr ""))) with false. cbv iota.
  unfold bind at 1. unfold query at 1, query_checked. rewrite Hok.
  cbn [pg logged with_redis]. fold (guild_rows (pg w) guildID). rewrite Hrows.
  unfold bind at 1. unfold resolve at 1.
  unfold bind at 1. cbn [head lift_option]. unfold resolve at 1.
  unfold bind, detach, resolve.
  match goal with
  | |- context [RedisHandler.setHash ?k ?dt e ?w0] =>
      pose proof (setHash_pg k dt e w0) as Hpg;
      destruct (RedisHandler.setHash k dt e w0) as [o1 w1]
  end.
  cbn [snd pg with_pg logged] in Hpg. intros [= <- <-]. split; [|done].
  unfold default_settings, js_col, default_guild_row. by simplify_map_eq.
Qed.

(** The part of C2 about the second fetch, in general: after the first
    fetch of an unknown guild, a second fetch returns the defaults with the
    storage id generated by the first one, and records no further epoch
    (the relational store is not written at all). *)
Lemma fetchGuildSettings_again (guildID : string) (e e' : Env) (w : World) :
  all_healthy e → all_healthy e' →
  guild_rows (pg w) guildID = [] →
  redis w !! key_guild guildID = None →
  let first := fetchGuildSettings guildID e w in
  let second := fetchGuildSettings guildID e' first.2 in
  second.1 = Resolved (default_settings guildID (storage_id_at e (rng_pos w)))
  ∧ pg second.2 = pg first.2
  ∧ epochs (pg second.2) guildID
    = epochs (pg w) guildID
      ++ [epoch_row guildID (storage_id_at e (rng_pos w)) (now e)].
Proof.
  intros Hok Hok' Hrows Hkey. cbv zeta.
  destruct (fetchGuildSettings_first_fetch guildID e w Hok Hrows Hkey)
    as (w1 & Heq & Hpg & Hcache).
  rewrite Heq. cbn [snd].
  assert (Hrows1 : guild_rows (pg w1) guildID
                   = [default_guild_row guildID (storage_id_at e (rng_pos w))]).
  { unfold guild_rows, sql_select. rewrite Hpg.
    unfold insert_guild_storage, insert_default_guild. cbn [fst snd].
    rewrite table_sql_insert_ne, table_sql_insert_eq by done.
    rewrite filter_app. unfold guild_rows, sql_select in Hrows. rewrite Hrows.
    cbn [List.filter]. fold (default_guild_row guildID (storage_id_at e (rng_pos w))).
    by rewrite default_guild_row_matches. }
  destruct (fetchGuildSettings_from_row guildID _ e' w1 Hok' Hcache Hrows1)
    as [Hres Hpg'].
  split; [done|]. split; [done|].
  rewrite Hpg', Hpg. unfold epochs, sql_select.
  unfold insert_guild_storage, insert_default_guild. cbn [fst snd pg_param].
  rewrite table_sql_insert_eq, table_sql_insert_ne by done.
  rewrite filter_app. cbn [List.filter].
  fold (epoch_row guildID (storage_id_at e (rng_pos w)) (now e)).
  assert (Hm : where_eq "guild_id" (JStr guildID)
                 (epoch_row guildID (storage_id_at e (rng_pos w)) (now e)) = true).
  { unfold where_eq, col, epoch_row. simplify_map_eq. cbn. apply String.eqb_refl. }
  by rewrite Hm.
Qed.

(* ===================================================================== *)
(** ** Integers through the hash: decimal text and back *)
(* ===================================================================== *)

Lemma digit_of_pretty_N_char v :
  (v < 10)%N → digit_of (pretty_N_char v) = Some (Z.of_N v).
Proof.
  intros Hv.
  assert (v = 0 ∨ v = 1 ∨ v = 2 ∨ v = 3 ∨ v = 4 ∨ v = 5 ∨ v = 6 ∨ v = 7
          ∨ v = 8 ∨ v = 9)%N as Hcases by lia.
  repeat (destruct Hcases as [->|Hcases]; [reflexivity|]). by subst.
Qed.

Lemma all_digits_cons c r :
  all_digits (String c r) = bool_decide (is_Some (digit_of c)) && all_digits r.
Proof. reflexivity. Qed.

(** The digits written for a positive number: they parse back to it
    (after whatever was parsed before), they are digits, and the first one
    is not 0. *)
Lemma pretty_N_go_digits x :
  (0 < x)%N →
  ∃ k : nat, ∀ s,
    (∀ acc, parse_digits (Some acc) (pretty_N_go x s)
            = parse_digits (Some (acc * 10 ^ Z.of_nat k + Z.of_N x)) s)
    ∧ ∃ v r, (0 < v < 10)%N
             ∧ pretty_N_go x s = String (pretty_N_char v) r
             ∧ (all_digits s = true → all_digits r = true).
Proof.
  induction (N.lt_wf_0 x) as [x _ IH]. intros Hpos.
  destruct (decide (x < 10)%N) as [Hsmall|Hbig].
  - exists 1%nat. intros s.
    rewrite pretty_N_go_step by done.
    rewrite N.div_small, N.mod_small by done. rewrite pretty_N_go_0.
    split.
    + intros acc. cbn [parse_digits].
      rewrite digit_of_pretty_N_char by done. cbn [default].
      f_equal. f_equal. unfold id. change (Z.of_nat 1) with 1.
      rewrite Z.pow_1_r. lia.
    + exists x, s. split; [lia|]. by split.
  - assert (Hdiv : (0 < x `div` 10)%N) by (apply N.div_str_pos; lia).
    assert (Hlt : (x `div` 10 < x)%N) by (apply N.div_lt; lia).
    destruct (IH _ Hlt Hdiv) as [k Hk].
    exists (S k). intros s.
    rewrite pretty_N_go_step by done.
    destruct (Hk (String (pretty_N_char (x `mod` 10)) s))
      as (Hparse & v & r & Hv & Heq & Hall).
    assert (Hmod : (x `mod` 10 < 10)%N) by (apply N.mod_lt; lia).
    split.
    + intros acc. rewrite Hparse. cbn [parse_digits].
      rewrite digit_of_pretty_N_char by done. cbn [default].
      f_equal. f_equal. unfold id.
      rewrite Nat2Z.inj_succ, Z.pow_succ_r by lia.
      pose proof (N.div_mod x 10 ltac:(lia)) as Hdm.
      assert (Z.of_N x = 10 * Z.of_N (x `div` 10) + Z.of_N (x `mod` 10)) by lia.
      lia.
    + exists v, r. split; [done|]. split; [done|].
      intros Hs. apply Hall. rewrite all_digits_cons, Hs.
      rewrite digit_of_pretty_N_char by done. reflexivity.
Qed.

Lemma pretty_pos_digits p :
  ∃ v r, (0 < v < 10)%N
         ∧ pretty (Z.pos p) = String (pretty_N_char v) r
         ∧ all_digits r = true
         ∧ parse_digits (Some 0) (pretty (Z.pos p)) = Some (Z.pos p).
Proof.
  destruct (pretty_N_go_digits (N.pos p) ltac:(lia)) as [k Hk].
  destruct (Hk "") as (Hparse & v & r & Hv & Heq & Hall).
  exists v, r.
  change (pretty (Z.pos p)) with (pretty_N_go (N.pos p) "").
  split; [done|]. split; [done|]. split; [by apply Hall|].
  rewrite Hparse. cbn [parse_digits]. f_equal; lia.
Qed.

Lemma nonzero_digit_cases v :
  (0 < v < 10)%N →
  v = 1%N ∨ v = 2%N ∨ v = 3%N ∨ v = 4%N ∨ v = 5%N ∨ v = 6%N ∨ v = 7%N
  ∨ v = 8%N ∨ v = 9%N.
Proof. lia. Qed.

Lemma parse_digits_None_digit c r d :
  digit_of c = Some d →
  parse_digits None (String c r) = parse_digits (Some 0) (String c r).
Proof. intros Hd. cbn [parse_digits]. by rewrite Hd. Qed.

(** [parseInt] reads back the decimal text of an integer. *)
Lemma parseInt_pretty (z : Z) : parseInt (JStr (pretty z)) = JNum z.
Proof.
  destruct z as [|p|p].
  - reflexivity.
  - destruct (pretty_pos_digits p) as (v & r & Hv & Heq & _ & Hparse).
    rewrite Heq in Hparse |- *.
    pose proof (parse_digits_None_digit (pretty_N_char v) r _
                  (digit_of_pretty_N_char v ltac:(lia))) as Hnone.
    destruct (nonzero_digit_cases v Hv) as [->|[->|[->|[->|[->|[->|[->|[->| ->]]]]]]]];
      cbn [parseInt pretty_N_char] in *; by rewrite Hnone, Hparse.
  - change (pretty (Z.neg p)) with ("-" +:+ pretty (Z.pos p)).
    destruct (pretty_pos_digits p) as (v & r & Hv & Heq & _ & Hparse).
    rewrite Heq in Hparse |- *. unfold parseInt.
    change ("-" +:+ String (pretty_N_char v) r)
      with (String "-" (String (pretty_N_char v) r)).
    cbv beta iota.
    by rewrite (parse_digits_None_digit (pretty_N_char v) r _
                  (digit_of_pretty_N_char v ltac:(lia))), Hparse.
Qed.


(* ===================================================================== *)
(** ** Members: the read path through the cache *)
(* ===================================================================== *)

Lemma getHashFields_hash key h e w :
  fails e (OnRedis RHGetAll key) = false →
  redis_hgetall key (redis w) = Some h →
  RedisHandler.getHashFields key e w = (Resolved h, logged (OnRedis RHGetAll key) w).
Proof.
  intros Hf Hh. unfold RedisHandler.getHashFields, command. rewrite Hf, Hh.
  cbn [mbind option_bind]. by destruct w.
Qed.

Lemma redis_hset_hgetall key fs s h :
  redis_hgetall key s = Some h →
  ∃ s', redis_hset key fs s = Some s'
        ∧ redis_hgetall key s' = Some (hash_put fs h)
        ∧ ∀ k, k ≠ key → s' !! k = s !! k.
Proof.
  unfold redis_hgetall, redis_hset.
  destruct (s !! key) as [[[d|h'] t]|] eqn:Hk; [discriminate| |];
    intros [= <-]; eexists; (split; [reflexivity|]); split.
  - by rewrite lookup_insert_eq.
  - intros k Hne. by rewrite lookup_insert_ne.
  - by rewrite lookup_insert_eq.
  - intros k Hne. by rewrite lookup_insert_ne.
Qed.

(** What the object built from the cached hash is, for a hash that holds
    a member with integer counters. *)
Lemma cached_member_object (h : gmap string string) u g s fake leaves bonus regular nc :
  u ≠ "" →
  h !! "userID" = Some u → h !! "guildID" = Some g → h !! "storageID" = Some s →
  h !! "fake" = Some (pretty fake) → h !! "leaves" = Some (pretty leaves) →
  h !! "bonus" = Some (pretty bonus) → h !! "regular" = Some (pretty regular) →
  h !! "notCreated" = Some (to_arg (JBool nc)) →
  ∀ e w,
    redis_hgetall (key_member u g s) (redis w) = Some h →
    fails e (OnRedis RHGetAll (key_member u g s)) = false →
    fetchGuildMember u g s e w
    = (Resolved (member_object u g s fake leaves bonus regular nc),
       logged (OnRedis RHGetAll (key_member u g s)) w).
Proof.
  intros Hu H1 H2 H3 H4 H5 H6 H7 H8 e w Hh Hf.
  unfold fetchGuildMember, bind. rewrite (getHashFields_hash _ h) by done.
  unfold hash_field. rewrite H1, H2, H3, H4, H5, H6, H7, H8.
  cbn [fmap option_fmap option_map default].
  assert (Ht : truthy (JStr u) = true).
  { cbn. apply negb_true_iff, String.eqb_neq. done. }
  unfold id. rewrite Ht, !parseInt_pretty.
  unfold member_object, resolve. by destruct nc.
Qed.

(** The store path: one HGETALL, one SELECT, one HMSET of the eight
    fields; the relational store is left as it was. *)
Lemma fetchGuildMember_store_path u g s e w h :
  all_healthy e →
  redis_hgetall (key_member u g s) (redis w) = Some h →
  h !! "userID" = None →
  let rows := member_rows (pg w) u g s in
  ∃ w',
    fetchGuildMember u g s e w
    = (Resolved (JObj (member_fields u g s rows
                       ++ [("invites",
                             js_minus
                               (js_minus
                                  (js_plus (member_counter rows "invites_regular")
                                           (member_counter rows "invites_bonus"))
                                  (member_counter rows "invites_leaves"))
                               (member_counter rows "invites_fake"))])), w')
    ∧ pg w' = pg w
    ∧ rng_pos w' = rng_pos w
    ∧ log w' = log w ++ [OnRedis RHGetAll (key_member u g s);
                         OnPg PgSelect "members";
                         OnRedis RHMSet (key_member u g s)]
    ∧ redis_hgetall (key_member u g s) (redis w')
      = Some (hash_put (List.map (fun kv => (kv.1, to_arg kv.2))
                          (member_fields u g s rows)) h)
    ∧ ∀ k, k ≠ key_member u g s → redis w' !! k = redis w !! k.
Proof.
  intros Hok Hh Hu rows.
  destruct (redis_hset_hgetall (key_member u g s)
              (List.map (fun kv => (kv.1, to_arg kv.2)) (member_fields u g s rows))
              (redis w) h Hh) as (s' & Hset & Hget & Hother).
  unfold fetchGuildMember, bind.
  rewrite (getHashFields_hash _ h) by done.
  unfold hash_field at 1. rewrite Hu. cbn [fmap option_fmap option_map default truthy].
  unfold query, query_checked. rewrite (Hok _).
  unfold detach, RedisHandler.setHash. cbn [List.length Nat.ltb Nat.leb].
  unfold command. rewrite (Hok _).
  cbn [redis logged with_pg pg].
  fold (member_rows (pg w) u g s). fold rows.
  change [("userID", JStr u); ("guildID", JStr g); ("storageID", JStr s);
          ("fake", match head rows with Some row0 => js_col row0 "invites_fake" | None => JNum 0 end);
          ("leaves", match head rows with Some row0 => js_col row0 "invites_leaves" | None => JNum 0 end);
          ("bonus", match head rows with Some row0 => js_col row0 "invites_bonus" | None => JNum 0 end);
          ("regular", match head rows with Some row0 => js_col row0 "invites_regular" | None => JNum 0 end);
          ("notCreated", JBool (bool_decide (head rows = None)))]
    with (member_fields u g s rows).
  rewrite Hset. cbn [mbind option_bind].
  eexists. split; [reflexivity|].
  cbn [pg redis log rng_pos with_redis logged with_pg].
  repeat split; try done.
  by rewrite <- !app_assoc.
Qed.

Lemma member_fields_hash u g s rows (h : gmap string string) :
  let h' := hash_put (List.map (fun kv => (kv.1, to_arg kv.2)) (member_fields u g s rows)) h in
  h' !! "userID" = Some u ∧ h' !! "guildID" = Some g ∧ h' !! "storageID" = Some s
  ∧ h' !! "fake" = Some (to_arg (member_counter rows "invites_fake"))
  ∧ h' !! "leaves" = Some (to_arg (member_counter rows "invites_leaves"))
  ∧ h' !! "bonus" = Some (to_arg (member_counter rows "invites_bonus"))
  ∧ h' !! "regular" = Some (to_arg (member_counter rows "invites_regular"))
  ∧ h' !! "notCreated" = Some (to_arg (JBool (bool_decide (head rows = None)))).
Proof.
  unfold member_fields, hash_put. cbn [List.map foldl fst snd to_arg].
  repeat split; by simplify_map_eq.
Qed.

(** The counters a fetch from the store reports, as integers. *)
Lemma member_counters_integer rows :
  (∀ r, head rows = Some r → ∃ f l b rg, integer_counters r f l b rg) →
  ∃ f l b rg,
    match head rows with
    | Some r => integer_counters r f l b rg
    | None => f = 0 ∧ l = 0 ∧ b = 0 ∧ rg = 0
    end
    ∧ member_counter rows "invites_fake" = JNum f
    ∧ member_counter rows "invites_leaves" = JNum l
    ∧ member_counter rows "invites_bonus" = JNum b
    ∧ member_counter rows "invites_regular" = JNum rg.
Proof.
  intros Hint. unfold member_counter. destruct (head rows) as [r|].
  - destruct (Hint r eq_refl) as (f & l & b & rg & Hc).
    exists f, l, b, rg. split; [done|].
    destruct Hc as (Hf & Hl & Hb & Hr). unfold js_col.
    by rewrite Hf, Hl, Hb, Hr.
  - by exists 0, 0, 0, 0.
Qed.

(** X1 — [fetchGuildMember] reads through the cache.  When no round trip
    fails, the member is not cached and the counters of its first row (if
    any) are integers, the fetch answers from the store: the counters of
    that row, or zeros and [notCreated] when there is no row.  A second
    fetch returns the same object with a single HGETALL, and neither fetch
    changes the relational store. *)
Theorem fetchGuildMember_read_through (userID guildID storageID : string)
    (e : Env) (w : World) :
  all_healthy e →
  userID ≠ "" →
  member_uncached (redis w) (key_member userID guildID storageID) →
  (∀ r, head (member_rows (pg w) userID guildID storageID) = Some r →
        ∃ f l b rg, integer_counters r f l b rg) →
  let first := fetchGuildMember userID guildID storageID e w in
  let second := fetchGuildMember userID guildID storageID e first.2 in
  ∃ f l b rg,
    match head (member_rows (pg w) userID guildID storageID) with
    | Some r => integer_counters r f l b rg
    | None => f = 0 ∧ l = 0 ∧ b = 0 ∧ rg = 0
    end
    ∧ first.1 = Resolved (member_object userID guildID storageID f l b rg
                            (bool_decide (head (member_rows (pg w) userID guildID storageID)
                                          = None)))
    ∧ second.1 = first.1
    ∧ round_trips first.2 second.2
      = [OnRedis RHGetAll (key_member userID guildID storageID)]
    ∧ pg second.2 = pg w.
Proof.
  intros Hok Hu (h & Hh & Hnone) Hint first second.
  destruct (fetchGuildMember_store_path userID guildID storageID e w h Hok Hh Hnone)
    as (w' & Hfirst & Hpg & _ & _ & Hget & _).
  destruct (member_counters_integer _ Hint) as (f & l & b & rg & Hrow & Hf & Hl & Hb & Hr).
  exists f, l, b, rg. split; [exact Hrow|].
  pose proof (member_fields_hash userID guildID storageID
                (member_rows (pg w) userID guildID storageID) h)
    as (H1 & H2 & H3 & H4 & H5 & H6 & H7 & H8).
  rewrite Hf in H4. rewrite Hl in H5. rewrite Hb in H6. rewrite Hr in H7.
  cbn [to_arg] in H4, H5, H6, H7.
  assert (Hsecond : fetchGuildMember userID guildID storageID e w'
                    = (Resolved (member_object userID guildID storageID f l b rg
                         (bool_decide (head (member_rows (pg w) userID guildID storageID)
                                       = None))),
                       logged (OnRedis RHGetAll (key_member userID guildID storageID)) w')).
  { by apply (cached_member_object _ _ _ _ _ _ _ _ _ Hu H1 H2 H3 H4 H5 H6 H7 H8). }
  subst first second. rewrite Hfirst. cbn [fst snd]. rewrite Hsecond. cbn [fst snd].
  split.
  { unfold member_fields, member_object. rewrite Hf, Hl, Hb, Hr. reflexivity. }
  split.
  { unfold member_fields, member_object. rewrite Hf, Hl, Hb, Hr. reflexivity. }
  split; [by apply round_trips_app|]. done.
Qed.

Lemma fetchGuildMember_read_through_witness :
  let first := fetchGuildMember "U1" "G1" "777777777777" healthy world_G1_members in
  first.1 = Resolved (member_object "U1" "G1" "777777777777" 0 1 2 5 false)
  ∧ (fetchGuildMember "U1" "G1" "777777777777" healthy first.2).1 = first.1.
Proof.
  assert (Hu : "U1" ≠ "") by done.
  assert (Hc : member_uncached (redis world_G1_members)
                 (key_member "U1" "G1" "777777777777")).
  { exists ∅. split; [by vm_compute|done]. }
  assert (Hint : ∀ r, head (member_rows (pg world_G1_members) "U1" "G1" "777777777777")
                      = Some r → ∃ f l b rg, integer_counters r f l b rg).
  { intros r Hr. vm_compute in Hr. injection Hr as <-.
    exists 0, 1, 2, 5. by vm_compute. }
  destruct (fetchGuildMember_read_through "U1" "G1" "777777777777" healthy
              world_G1_members healthy_all_healthy Hu Hc Hint)
    as (f & l & b & rg & _ & _ & Hsame & _).
  split; [by vm_compute|exact Hsame].
Defined.

(* ===================================================================== *)
(** ** Members: creation *)
(* ===================================================================== *)

Lemma created_member_row_matches u g s :
  member_row_matches u g s
    {[ "guild_id" := JStr g; "user_id" := JStr u; "storage_id" := JStr s;
       "invites_fake" := JNum 0; "invites_leaves" := JNum 0;
       "invites_bonus" := JNum 0; "invites_regular" := JNum 0 ]} = true.
Proof.
  unfold member_row_matches, where_eq, col. simplify_map_eq.
  cbn. by rewrite !String.eqb_refl.
Qed.

(** [createGuildMember] when no round trip fails and the key holds no
    string: the row is appended, the hash gains [notCreated = "false"]. *)
Lemma createGuildMember_world u g s e w h :
  all_healthy e →
  redis_hgetall (key_member u g s) (redis w) = Some h →
  ∃ w',
    createGuildMember u g s e w = (Resolved tt, w')
    ∧ member_rows (pg w') u g s
      = member_rows (pg w) u g s
        ++ [ {[ "guild_id" := JStr g; "user_id" := JStr u; "storage_id" := JStr s;
                "invites_fake" := JNum 0; "invites_leaves" := JNum 0;
                "invites_bonus" := JNum 0; "invites_regular" := JNum 0 ]} ]
    ∧ redis_hgetall (key_member u g s) (redis w')
      = Some (<["notCreated" := "false"]> h).
Proof.
  intros Hok Hh.
  destruct (redis_hset_hgetall (key_member u g s) [("notCreated", "false")]
              (redis w) h Hh) as (s' & Hset & Hget & _).
  unfold createGuildMember, bind, all2, RedisHandler.setHash.
  cbn [List.length Nat.ltb Nat.leb head fmap option_fmap option_map default fst snd to_arg].
  unfold command. rewrite (Hok _). unfold id. cbn [to_arg].
  rewrite Hset. cbn [mbind option_bind].
  unfold query, query_checked. rewrite (Hok _).
  eexists. split; [reflexivity|].
  cbn [pg redis with_pg with_redis logged]. split; [|exact Hget].
  unfold member_rows, sql_select. rewrite table_sql_insert_eq.
  rewrite List.filter_app. cbn [List.filter].
  by rewrite created_member_row_matches.
Qed.

(** X2 — creating a member makes it fetchable as created.  When no round
    trip fails, the member has no row and is not cached, a fetch reports
    zero counters with [notCreated] set; after [createGuildMember] a fetch
    reports zero counters with [notCreated] cleared, both when nothing was
    cached before the creation (the answer then comes from the store) and
    when the earlier fetch had cached the member as not created (the
    answer then comes from the hash, with a single HGETALL). *)
Theorem createGuildMember_then_fetch (userID guildID storageID : string)
    (e : Env) (w : World) :
  all_healthy e →
  userID ≠ "" →
  member_uncached (redis w) (key_member userID guildID storageID) →
  member_rows (pg w) userID guildID storageID = [] →
  let created := (createGuildMember userID guildID storageID e w).2 in
  let seen := fetchGuildMember userID guildID storageID e w in
  let created_after := (createGuildMember userID guildID storageID e seen.2).2 in
  seen.1 = Resolved (member_object userID guildID storageID 0 0 0 0 true)
  ∧ (fetchGuildMember userID guildID storageID e created).1
    = Resolved (member_object userID guildID storageID 0 0 0 0 false)
  ∧ (fetchGuildMember userID guildID storageID e created_after).1
    = Resolved (member_object userID guildID storageID 0 0 0 0 false)
  ∧ round_trips created_after
      (fetchGuildMember userID guildID storageID e created_after).2
    = [OnRedis RHGetAll (key_member userID guildID storageID)].
Proof.
  intros Hok Hu (h & Hh & Hnone) Hrows created seen created_after.
  destruct (fetchGuildMember_store_path userID guildID storageID e w h Hok Hh Hnone)
    as (w1 & Hseen & Hpg1 & _ & _ & Hget1 & _).
  rewrite Hrows in Hseen, Hget1.
  destruct (createGuildMember_world userID guildID storageID e w h Hok Hh)
    as (w2 & Hcreate & Hrows2 & Hget2).
  rewrite Hrows in Hrows2. cbn [app] in Hrows2.
  destruct (createGuildMember_world userID guildID storageID e w1 _ Hok Hget1)
    as (w3 & Hcreate3 & _ & Hget3).
  subst created seen created_after.
  rewrite Hseen, Hcreate. cbn [fst snd]. rewrite Hcreate3. cbn [fst snd].
  split; [reflexivity|]. split.
  - assert (Hnone2 : (<["notCreated" := "false"]> h : gmap string string) !! "userID" = None).
    { by rewrite lookup_insert_ne. }
    destruct (fetchGuildMember_store_path userID guildID storageID e w2 _ Hok Hget2 Hnone2)
      as (w4 & Hfetch & _).
    rewrite Hrows2 in Hfetch. rewrite Hfetch. cbn [fst].
    unfold member_fields, member_counter, member_object, js_col. cbn [head].
    by simplify_map_eq.
  - pose proof (member_fields_hash userID guildID storageID [] h)
      as (H1 & H2 & H3 & H4 & H5 & H6 & H7 & _).
    cbn [member_counter head to_arg] in H4, H5, H6, H7.
    rewrite (cached_member_object
               (<["notCreated" := "false"]>
                  (hash_put (List.map (fun kv => (kv.1, to_arg kv.2))
                               (member_fields userID guildID storageID [])) h))
               userID guildID storageID 0 0 0 0 false Hu);
      rewrite ?lookup_insert_eq, ?lookup_insert_ne by done; try done.
    cbn [fst snd]. split; [done|]. by apply round_trips_app.
Qed.

Lemma createGuildMember_then_fetch_witness :
  (fetchGuildMember "U9" "G1" "777777777777" healthy
     (createGuildMember "U9" "G1" "777777777777" healthy world_G1_members).2).1
  = Resolved (member_object "U9" "G1" "777777777777" 0 0 0 0 false).
Proof.
  assert (Hu : "U9" ≠ "") by done.
  assert (Hc : member_uncached (redis world_G1_members)
                 (key_member "U9" "G1" "777777777777")).
  { exists ∅. split; [by vm_compute|done]. }
  assert (Hrows : member_rows (pg world_G1_members) "U9" "G1" "777777777777" = [])
    by (by vm_compute).
  exact (proj1 (proj2 (createGuildMember_then_fetch "U9" "G1" "777777777777" healthy
                         world_G1_members healthy_all_healthy Hu Hc Hrows))).
Defined.

(* ===================================================================== *)
(** ** Members: adding invites *)
(* ===================================================================== *)




Lemma key_member_ne_leaderboard u g s g' s' :
  key_member u g s ≠ key_leaderboard g' s'.
Proof. unfold key_member, key_leaderboard. simpl. discriminate. Qed.

Lemma redis_hincrby_frame k f n s s' k' :
  redis_hincrby k f n s = Some s' → k' ≠ k → s' !! k' = s !! k'.
Proof.
  unfold redis_hincrby. intros H Hne.
  destruct (s !! k) as [[[d|h] t]|]; [discriminate| |].
  - destruct (h !! f) as [v|].
    + destruct (redis_int v); simpl in H; [|discriminate].
      injection H as <-. by rewrite lookup_insert_ne.
    + injection H as <-. by rewrite lookup_insert_ne.
  - injection H as <-. by rewrite lookup_insert_ne.
Qed.


(** [incrHashBy] touches one key of the cache and nothing else. *)
Lemma incrHashBy_frame key f n e w :
  pg (incrHashBy key f n e w).2 = pg w
  ∧ ∀ k, k ≠ key → redis (incrHashBy key f n e w).2 !! k = redis w !! k.
Proof.
  unfold incrHashBy, command. destruct (fails e _); [done|].
  destruct (redis_hincrby key f n (redis w)) as [s'|] eqn:Hs; simpl; [|done].
  split; [done|]. intros k Hk. by eapply redis_hincrby_frame.
Qed.

Lemma all_list_incrHashBy_frame usersID g s type n e w :
  pg (all_list (List.map (fun userID => incrHashBy (key_member userID g s) type n)
                  usersID) e w).2 = pg w
  ∧ ∀ k, (∀ u, u ∈ usersID → k ≠ key_member u g s) →
         redis (all_list (List.map (fun userID =>
                            incrHashBy (key_member userID g s) type n)
                          usersID) e w).2 !! k = redis w !! k.
Proof.
  revert w. induction usersID as [|u us IH]; intros w; [done|].
  cbn [List.map all_list].
  pose proof (incrHashBy_frame (key_member u g s) type n e w) as [Hpg Hfr].
  destruct (incrHashBy (key_member u g s) type n e w) as [o w1].
  specialize (IH w1) as [Hpg' Hfr'].
  destruct (all_list _ e w1) as [os w2]. cbn [snd] in *.
  assert (Hw : (match o with
                | Resolved a => match os with
                                | Resolved l => (Resolved (a :: l), w2)
                                | Rejected err => (Rejected err, w2)
                                end
                | Rejected err => (Rejected err, w2)
                end).2 = w2) by (by destruct o, os).
  rewrite Hw. split; [congruence|].
  intros k Hk. rewrite Hfr', Hfr; [done| |].
  - apply Hk. by left.
  - intros u' Hu'. apply Hk. by right.
Qed.











Lemma query_checked_redis {A} k t (run : Postgres → option (A * Postgres)) e w :
  redis (query_checked k t run e w).2 = redis w.
Proof.
  unfold query_checked. destruct (fails e _); [done|].
  by destruct (run (pg w)) as [[a db']|].
Qed.


Lemma delete_detached key e w :
  fails e (OnRedis RDel key) = false →
  detach (RedisHandler.delete key) e w
  = (Resolved tt, with_redis (redis_del key (redis w)) (logged (OnRedis RDel key) w)).
Proof.
  intros Hf. unfold detach, RedisHandler.delete, command. by rewrite Hf.
Qed.





(** X5 — adding invites drops the cached leaderboard of the guild and
    epoch.  When the DEL is not failed, the leaderboard key is absent
    after [addInvites] and after [addGuildInvites], whatever the type, the
    listed members and the outcome of the other round trips, so that the
    next [fetchGuildLeaderboard] reads the store. *)
Theorem invite_additions_drop_leaderboard (usersID : list string)
    (userID guildID storageID : string) (number : Z) (type : string)
    (e : Env) (w : World) :
  fails e (OnRedis RDel (key_leaderboard guildID storageID)) = false →
  redis (addInvites userID guildID storageID number type e w).2
    !! key_leaderboard guildID storageID = None
  ∧ redis (addGuildInvites usersID guildID storageID number type e w).2
      !! key_leaderboard guildID storageID = None.
Proof.
  intros Hdel. split.
  - unfold addInvites. unfold bind at 1. rewrite delete_detached by done.
    rewrite bind_resolve_world, all2_world, query_checked_redis.
    rewrite (proj2 (incrHashBy_frame _ _ _ _ _)).
    + cbn [redis with_redis]. unfold redis_del. apply lookup_delete_eq.
    + intros H. symmetry in H. by apply key_member_ne_leaderboard in H.
  - unfold addGuildInvites. unfold bind at 1. rewrite delete_detached by done.
    rewrite bind_resolve_world, all2_world, query_checked_redis.
    rewrite (proj2 (all_list_incrHashBy_frame _ _ _ _ _ _ _)).
    + cbn [redis with_redis]. unfold redis_del. apply lookup_delete_eq.
    + intros u _ H. symmetry in H. by apply key_member_ne_leaderboard in H.
Qed.

Lemma invite_additions_drop_leaderboard_witness :
  let cached :=
    (fetchGuildLeaderboard "G1" "777777777777" JUndefined healthy world_G1_members).2 in
  redis cached !! key_leaderboard "G1" "777777777777" ≠ None
  ∧ redis (addInvites "U1" "G1" "777777777777" 4 "bonus" healthy cached).2
      !! key_leaderboard "G1" "777777777777" = None
  ∧ redis (addGuildInvites ["U1"; "U2"] "G1" "777777777777" 4 "bonus" healthy cached).2
      !! key_leaderboard "G1" "777777777777" = None.
Proof.
  split; [vm_compute; discriminate|].
  apply (invite_additions_drop_leaderboard ["U1"; "U2"] "U1" "G1" "777777777777" 4
           "bonus" healthy). reflexivity.
Defined.
